(** * Textureaide: UDIM numbering, tile selection and scale arithmetic

    A shallow embedding of the calculation core of the add-on:
    [utils/udim_utils.py] (tile numbering, sequences, gaps, selection) and
    [utils/scaling_utils.py] (pixel to physical size, scale factors,
    validation), followed by the properties proved about them.

    Conventions of the embedding:
    - a Python [int] is a [Z]; [%] and [//] by a positive divisor are
      [Z.modulo] and [Z.div] (both floor);
    - a Python [float] is a binary64 [float] of [PrimFloat];
    - a function that can raise returns a [result];
    - a [dict] is the list of its items in insertion order, which is the
      order Python iterates it in; a [set] is a [gset]. *)

From Stdlib Require Import ZArith String.
From Stdlib Require Import Floats.PrimFloat Floats.SpecFloat Floats.FloatOps
  Floats.FloatAxioms.
From stdpp Require Import base tactics option list sorting gmap pretty.

#[local] Open Scope Z_scope.

(** ** Exceptions and results *)

(** The exceptions the two modules can raise; the message of a
    [ValueError] is not modelled. *)
Inductive exn : Set :=
| ValueError
| ZeroDivisionError
| OverflowError.

Inductive result (A : Type) : Type :=
| Ok (a : A)
| Raise (e : exn).

Arguments Ok {A} a.
Arguments Raise {A} e.

#[global] Instance result_ret : MRet result := λ A a, Ok a.

#[global] Instance result_fmap : FMap result := λ A B f r,
  match r with
  | Ok a => Ok (f a)
  | Raise e => Raise e
  end.

#[global] Instance result_bind : MBind result := λ A B k r,
  match r with
  | Ok a => k a
  | Raise e => Raise e
  end.

(** ** [utils/udim_utils.py] *)

Module UdimUtils.

(** *** Tile numbering *)

Definition parse_udim_number (udim : Z) : result (Z * Z) :=
  if udim <? 1001 then Raise ValueError
  else
    let offset := udim - 1001 in
    let u := offset `mod` 10 in
    let v := offset `div` 10 in
    Ok (u, v).

Definition create_udim_number (u v : Z) : result Z :=
  if (u <? 0) || (u >? 9) then Raise ValueError
  else if v <? 0 then Raise ValueError
  else Ok (1001 + u + v * 10).

(** [range(stop)] and [range(start, stop)]: empty when [stop <= start]. *)
Definition range2 (start stop : Z) : list Z := seqZ start (stop - start).
Definition range (stop : Z) : list Z := range2 0 stop.

(** The body of the [for] loop of [generate_udim_sequence], threaded over
    the accumulated list [udims]. *)
Fixpoint generate_loop (u v : Z) (ixs : list Z) (udims : list Z)
  : result (list Z) :=
  match ixs with
  | [] => Ok udims
  | i :: ixs' =>
      let current_u := (u + i) `mod` 10 in
      let current_v := v + (u + i) `div` 10 in
      n ← create_udim_number current_u current_v;
      generate_loop u v ixs' (udims ++ [n])
  end.

Definition generate_udim_sequence (start_udim count : Z) : result (list Z) :=
  '(u, v) ← parse_udim_number start_udim;
  generate_loop u v (range count) [].

(** *** Tile dictionaries *)

(** The per-tile dictionary built by the directory scan. [width] and
    [height] are read with [.get(key, 0)], so either key may be absent. *)
Record udim_info : Set := mkInfo {
  filepath : string;
  filename : string;
  width : option Z;
  height : option Z;
  exists_ : bool
}.

(** A dictionary keyed by tile number, as the list of its items in
    insertion order. *)
Definition dict (V : Type) : Type := list (Z * V).

Definition items {V : Type} (d : dict V) : list (Z * V) := d.
Definition keys {V : Type} (d : dict V) : list Z := d.*1.

(** [not d] *)
Definition is_empty {V : Type} (d : dict V) : bool :=
  match d with [] => true | _ :: _ => false end.

(** [min(l)] and [max(l)] on a list of integers: [ValueError] on []. *)
Definition min_ (l : list Z) : result Z :=
  match l with
  | [] => Raise ValueError
  | a :: l' => Ok (foldl Z.min a l')
  end.

Definition max_ (l : list Z) : result Z :=
  match l with
  | [] => Raise ValueError
  | a :: l' => Ok (foldl Z.max a l')
  end.

(** *** Sorting *)

(** [list.sort(key=..., reverse=...)] and [sorted]: a stable sort. With
    [reverse] the order of the keys is descending and elements with equal
    keys still keep their original relative order. The output of a stable
    sort is determined by its input, so a stable insertion sort stands for
    Python's. *)
Definition before {A : Type} (key : A → Z) (reverse : bool) (a b : A) : bool :=
  if reverse then key b <=? key a else key a <=? key b.

Fixpoint insert_by {A : Type} (bef : A → A → bool) (a : A) (l : list A)
  : list A :=
  match l with
  | [] => [a]
  | b :: l' => if bef a b then a :: l else b :: insert_by bef a l'
  end.

Definition sort_by {A : Type} (key : A → Z) (reverse : bool) (l : list A)
  : list A :=
  foldr (insert_by (before key reverse)) [] l.

Definition sorted (l : list Z) : list Z := sort_by id false l.

(** *** Range and gaps *)

Definition get_udim_range (udim_files : dict udim_info) : result (Z * Z) :=
  if is_empty udim_files then Ok (1001, 1001)
  else
    let udim_numbers := keys udim_files in
    lo ← min_ udim_numbers;
    hi ← max_ udim_numbers;
    Ok (lo, hi).

Definition get_udim_gaps (udim_files : dict udim_info) : result (list Z) :=
  if is_empty udim_files then Ok []
  else
    '(min_udim, max_udim) ← get_udim_range udim_files;
    let expected_udims : gset Z := list_to_set (range2 min_udim (max_udim + 1)) in
    let actual_udims : gset Z := list_to_set (keys udim_files) in
    Ok (sorted (elements (expected_udims ∖ actual_udims))).

(** *** Selection *)

Definition get_pixel_count (udim_info : udim_info) : Z :=
  default 0 (width udim_info) * default 0 (height udim_info).

(** The loop appends one pair per item, in iteration order: a map over
    [items]. *)
Definition sort_udims_by_resolution
    (udim_files : dict udim_info) (descending : bool) : list Z :=
  let udim_resolutions :=
    (λ '(udim_num, udim_info), (udim_num, get_pixel_count udim_info))
      <$> items udim_files in
  let udim_resolutions := sort_by snd descending udim_resolutions in
  udim_resolutions.*1.

Definition select_optimal_udim (udim_files : dict udim_info) (mode : string)
  : result (option Z) :=
  if is_empty udim_files then Ok None
  else if String.eqb mode "FIRST" then
    Some <$> min_ (keys udim_files)
  else if String.eqb mode "LARGEST" then
    let sorted_udims := sort_udims_by_resolution udim_files true in
    Ok (head sorted_udims)
  else if String.eqb mode "SMALLEST" then
    let sorted_udims := sort_udims_by_resolution udim_files false in
    Ok (head sorted_udims)
  else
    Some <$> min_ (keys udim_files).

End UdimUtils.

(** ** [utils/scaling_utils.py] *)

Module ScalingUtils.

(** *** Python float arithmetic *)

(** The conversion Python applies to an [int] operand of [/] when the other
    operand is a [float]: correctly rounded (to nearest, ties to even), and
    [OverflowError] when the integer is too large for a binary64. *)
Definition float_of_int (n : Z) : result float :=
  match binary_normalize prec emax n 0 false with
  | S754_infinity _ => Raise OverflowError
  | sf => Ok (SF2Prim sf)
  end.

(** [a / b] on floats: [ZeroDivisionError] when [b == 0.0] (either sign),
    the IEEE quotient otherwise. *)
Definition truediv (a b : float) : result float :=
  if PrimFloat.eqb b 0 then Raise ZeroDivisionError
  else Ok (PrimFloat.div a b).

(** [a > b] on floats. *)
Definition gtb (a b : float) : bool := PrimFloat.ltb b a.

(** *** Blender data read by the module *)

(** [mathutils.Vector] of three components. *)
Record Vector : Set := mkVector { x : float; y : float; z : float }.

(** The two attributes of a [bpy.types.Object] the module reads. An absent
    object ([None]) is [None : option Object]; a present one is truthy. *)
Record Object : Set := mkObject { type : string; dimensions : Vector }.

Definition copy (v : Vector) : Vector := mkVector (x v) (y v) (z v).

(** *** Conversions *)

Definition pixels_to_blender_units (pixels : Z) (pixel_to_mm_ratio : float)
  : result float :=
  pixels_f ← float_of_int pixels;
  millimeters ← truediv pixels_f pixel_to_mm_ratio;
  meters ← truediv millimeters 1000;
  Ok meters.

Definition calculate_real_world_size
    (width_pixels height_pixels : Z) (pixel_to_mm_ratio : float)
  : result (float * float) :=
  width_meters ← pixels_to_blender_units width_pixels pixel_to_mm_ratio;
  height_meters ← pixels_to_blender_units height_pixels pixel_to_mm_ratio;
  Ok (width_meters, height_meters).

Definition calculate_scale_factors
    (obj : option Object) (target_width target_height : float)
  : result (float * float) :=
  match obj with
  | None => Ok (1%float, 1%float)
  | Some o =>
      let current_dimensions := copy (dimensions o) in
      if PrimFloat.eqb (x current_dimensions) 0
         || PrimFloat.eqb (y current_dimensions) 0
      then Ok (1%float, 1%float)
      else
        scale_x ← truediv target_width (x current_dimensions);
        scale_y ← truediv target_height (y current_dimensions);
        Ok (scale_x, scale_y)
  end.

(** *** Validation *)

(** The result dictionary of [validate_scaling_parameters]. *)
Record validation : Set := mkValidation {
  valid : bool;
  errors : list string;
  warnings : list string;
  can_proceed : bool
}.

(** [result['errors'].append(msg)] *)
Definition add_error (msg : string) (r : validation) : validation :=
  mkValidation (valid r) (errors r ++ [msg]) (warnings r) (can_proceed r).

(** [result['warnings'].append(msg)] *)
Definition add_warning (msg : string) (r : validation) : validation :=
  mkValidation (valid r) (errors r) (warnings r ++ [msg]) (can_proceed r).

(** [if c: result['warnings'].append(msg)] *)
Definition warn_if (c : bool) (msg : string) (r : validation) : validation :=
  if c then add_warning msg r else r.

Definition validate_scaling_parameters
    (obj : option Object) (tex_width tex_height : Z)
    (pixel_to_mm_ratio : float)
  : result validation :=
  let result := mkValidation false [] [] false in
  match obj with
  | None => Ok (add_error "No object provided" result)
  | Some o =>
    if negb (String.eqb (type o) "MESH")
    then Ok (add_error "Object is not a mesh" result)
    else if (tex_width <=? 0) || (tex_height <=? 0)
    then Ok (add_error "Invalid texture dimensions" result)
    else
      let result :=
        warn_if ((tex_width >? 16384) || (tex_height >? 16384))
          "Very large texture dimensions detected" result in
      if PrimFloat.leb pixel_to_mm_ratio 0
      then Ok (add_error "Invalid pixel to millimeter ratio" result)
      else
        let result :=
          warn_if (gtb pixel_to_mm_ratio 100)
            "Very high pixel density - object will be very small" result in
        let result :=
          warn_if (PrimFloat.ltb pixel_to_mm_ratio 0.01)
            "Very low pixel density - object will be very large" result in
        let current_dims := copy (dimensions o) in
        if PrimFloat.eqb (x current_dims) 0
           || PrimFloat.eqb (y current_dims) 0
        then Ok (add_error "Object has zero dimensions" result)
        else
          '(target_width, target_height) ←
            calculate_real_world_size tex_width tex_height pixel_to_mm_ratio;
          '(scale_x, scale_y) ←
            calculate_scale_factors obj target_width target_height;
          let result :=
            warn_if (gtb scale_x 1000 || gtb scale_y 1000)
              "Very large scale factors - object will become huge" result in
          let result :=
            warn_if (PrimFloat.ltb scale_x 0.001
                     || PrimFloat.ltb scale_y 0.001)
              "Very small scale factors - object will become tiny" result in
          let result :=
            mkValidation true (errors result) (warnings result)
              (can_proceed result) in
          let result :=
            mkValidation (valid result) (errors result) (warnings result)
              (bool_decide (length (errors result) = 0%nat)) in
          Ok result
  end.

End ScalingUtils.

(** ** Reference notions used in the statements *)

Module Raster.

(** Raster order on tile coordinates, in the words of the specification:
    the next cell is one step along u, and past the last column (u = 9) it
    is the first cell (u = 0) of the next row. *)
Definition raster_next (c : Z * Z) : Z * Z :=
  let '(u, v) := c in
  if u =? 9 then (0, v + 1) else (u + 1, v).

End Raster.

(** ** Sample data for the concrete instances *)

Module Samples.
Import UdimUtils.

(** A scanned tile of [w] by [h] pixels. *)
Definition tile (w h : Z) : udim_info :=
  mkInfo "//textures/wood.png" "wood.png" (Some w) (Some h) true.

End Samples.

(** ** [utils/udim_utils.py], remaining functions *)

Module UdimReports.
Import UdimUtils.

(** *** Index into the sorted tile list *)

Definition get_udim_from_index (udim_files : dict udim_info) (index : Z)
  : option Z :=
  if is_empty udim_files then None
  else
    let sorted_udims := sorted (keys udim_files) in
    if (0 <=? index) && (index <? Z.of_nat (length sorted_udims))
    then sorted_udims !! Z.to_nat index
    else None.

(** *** What Python prints inside an f-string *)

(** [str(n)] of an integer: decimal digits, [-] in front when negative. *)
Definition str_int (n : Z) : string := pretty n.

(** [str(l)] of a list of integers: [[1002, 1003]]. *)
Definition str_list (l : list Z) : string :=
  "[" +:+ String.concat ", " (str_int <$> l) +:+ "]".

(** *** Validation of a tile sequence *)

(** The result dictionary of [validate_udim_sequence]. *)
Record sequence_validation : Set := mkSequenceValidation {
  valid : bool;
  errors : list string;
  warnings : list string;
  suggestions : list string
}.

(** [result['warnings'].append(w); result['suggestions'].append(s)] *)
Definition warn_suggest (w s : string) (r : sequence_validation)
  : sequence_validation :=
  mkSequenceValidation (valid r) (errors r) (warnings r ++ [w])
    (suggestions r ++ [s]).

(** [result['suggestions'].append(s)] *)
Definition suggest (s : string) (r : sequence_validation)
  : sequence_validation :=
  mkSequenceValidation (valid r) (errors r) (warnings r) (suggestions r ++ [s]).

(** [result['errors'].append(e); result['valid'] = False], in either
    order. *)
Definition fail_with (e : string) (r : sequence_validation)
  : sequence_validation :=
  mkSequenceValidation false (errors r ++ [e]) (warnings r) (suggestions r).

(** [udim_files.values()] *)
Definition values {V : Type} (d : dict V) : list V := d.*2.

(** The set built by the resolution loop: the (width, height) of every
    tile whose two dimensions are positive. *)
Definition collect_resolutions (udim_files : dict udim_info) : gset (Z * Z) :=
  foldl (λ (resolutions : gset (Z * Z)) udim_info,
           let width := default 0 (width udim_info) in
           let height := default 0 (height udim_info) in
           if (0 <? width) && (0 <? height)
           then resolutions ∪ {[ (width, height) ]}
           else resolutions)
        ∅ (values udim_files).

(** The loop over very large textures. *)
Definition check_large (udim_files : dict udim_info) (r : sequence_validation)
  : sequence_validation :=
  foldl (λ result '(udim_num, udim_info),
           let width := default 0 (width udim_info) in
           let height := default 0 (height udim_info) in
           if (width >? 8192) || (height >? 8192)
           then warn_suggest
                  ("UDIM " +:+ str_int udim_num
                   +:+ " has very high resolution: "
                   +:+ str_int width +:+ "x" +:+ str_int height)
                  "Consider using lower resolution for better performance"
                  result
           else result)
        r (items udim_files).

(** The list [missing_files]. *)
Definition collect_missing (udim_files : dict udim_info) : list Z :=
  foldl (λ missing_files '(udim_num, udim_info),
           if negb (exists_ udim_info)
           then missing_files ++ [udim_num]
           else missing_files)
        [] (items udim_files).

Definition validate_udim_sequence (udim_files : dict udim_info)
  : result sequence_validation :=
  let result := mkSequenceValidation true [] [] [] in
  if is_empty udim_files then Ok (fail_with "No UDIM files found" result)
  else
    gaps ← get_udim_gaps udim_files;
    let result :=
      match gaps with
      | [] => result
      | _ :: _ =>
          warn_suggest ("Missing UDIM tiles: " +:+ str_list gaps)
            "Consider filling gaps or using non-sequential UDIMs" result
      end in
    let resolutions := collect_resolutions udim_files in
    let result :=
      if (1 <? size resolutions)%nat
      then warn_suggest "Inconsistent resolutions across UDIM tiles"
             "Consider standardizing all tiles to same resolution" result
      else result in
    let result := check_large udim_files result in
    let missing_files := collect_missing udim_files in
    let result :=
      match missing_files with
      | [] => result
      | _ :: _ =>
          fail_with ("UDIM files missing on disk: " +:+ str_list missing_files)
            result
      end in
    let result :=
      if (20 <? length udim_files)%nat
      then suggest "Large UDIM sequence - consider texture atlasing" result
      else result in
    let sorted_by_size := sort_udims_by_resolution udim_files true in
    let result :=
      match sorted_by_size with
      | largest :: _ :: _ =>
          suggest ("UDIM " +:+ str_int largest
                   +:+ " has highest resolution - good for detail scaling")
            result
      | _ => result
      end in
    Ok result.

(** *** Statistics *)

(** The dictionary returned by [get_udim_statistics]. The empty case has the
    key [file_sizes] and lacks [total_file_size] and [avg_file_size]; the
    other case has these two and lacks [file_sizes]: an absent key is
    [None]. *)
Record statistics : Set := mkStatistics {
  count : Z;
  total_pixels : Z;
  avg_resolution : Z * Z;
  min_resolution : Z * Z;
  max_resolution : Z * Z;
  udim_range : Z * Z;
  gaps : list Z;
  file_sizes : option (list Z);
  total_file_size : option Z;
  avg_file_size : option Z
}.

(** [a < b] on pairs of integers: lexicographic. *)
Definition pair_ltb (a b : Z * Z) : bool :=
  (a.1 <? b.1) || ((a.1 =? b.1) && (a.2 <? b.2)).

(** [min] and [max] of a non-empty list of pairs, given as head and tail:
    the running extreme is replaced only by a strictly better item. *)
Definition min_pair (r : Z * Z) (rs : list (Z * Z)) : Z * Z :=
  foldl (λ best item, if pair_ltb item best then item else best) r rs.

Definition max_pair (r : Z * Z) (rs : list (Z * Z)) : Z * Z :=
  foldl (λ best item, if pair_ltb best item then item else best) r rs.

(** [sum(l)] *)
Definition sum_ (l : list Z) : Z := foldl Z.add 0 l.

Section file_system.

(** The two file-system calls of the collection loop: [os.path.exists], and
    [os.path.getsize], which is [None] when it raises. *)
Variable path_exists : string → bool.
Variable getsize : string → option Z.

(** One pass of the collection loop, over the state
    [(resolutions, total_pixels, file_sizes)]. *)
Definition collect_step
    (state : list (Z * Z) * Z * list Z) (udim_info : udim_info)
  : list (Z * Z) * Z * list Z :=
  let '(resolutions, total_pixels, file_sizes) := state in
  let width := default 0 (width udim_info) in
  let height := default 0 (height udim_info) in
  let resolutions := resolutions ++ [(width, height)] in
  let total_pixels := total_pixels + width * height in
  let filepath := filepath udim_info in
  let file_sizes :=
    if negb (String.eqb filepath "") && path_exists filepath
    then match getsize filepath with
         | Some size => file_sizes ++ [size]
         | None => file_sizes
         end
    else file_sizes in
  (resolutions, total_pixels, file_sizes).

Definition collect_statistics (udim_files : dict udim_info)
  : list (Z * Z) * Z * list Z :=
  foldl collect_step ([], 0, []) (values udim_files).

Definition get_udim_statistics (udim_files : dict udim_info)
  : result statistics :=
  if is_empty udim_files
  then Ok (mkStatistics 0 0 (0, 0) (0, 0) (0, 0) (1001, 1001) []
             (Some []) None None)
  else
    let '(resolutions, total_pixels, file_sizes) :=
      collect_statistics udim_files in
    let '(avg, lo, hi) :=
      match resolutions with
      | r :: rs =>
          let widths := fst <$> resolutions in
          let heights := snd <$> resolutions in
          let avg_width := sum_ widths `div` Z.of_nat (length widths) in
          let avg_height := sum_ heights `div` Z.of_nat (length heights) in
          ((avg_width, avg_height), min_pair r rs, max_pair r rs)
      | [] => ((0, 0), (0, 0), (0, 0))
      end in
    range ← get_udim_range udim_files;
    gaps ← get_udim_gaps udim_files;
    Ok (mkStatistics (Z.of_nat (length udim_files)) total_pixels avg lo hi
          range gaps None
          (Some (match file_sizes with [] => 0 | _ :: _ => sum_ file_sizes end))
          (Some (match file_sizes with
                 | [] => 0
                 | _ :: _ => sum_ file_sizes `div` Z.of_nat (length file_sizes)
                 end))).

End file_system.

End UdimReports.

(** ** Notions used to state the properties of the reports *)

Module Resolutions.
Import UdimUtils.

(** The (width, height) a tile is read with, and what it means for both
    to be positive. *)
Definition resolution (info : udim_info) : Z * Z :=
  (default 0 (width info), default 0 (height info)).

Definition sized (info : udim_info) : Prop :=
  0 < default 0 (width info) ∧ 0 < default 0 (height info).

(** Lexicographic order on (width, height): by width, then by height. *)
Definition lex_le (a b : Z * Z) : Prop :=
  a.1 < b.1 ∨ (a.1 = b.1 ∧ a.2 ≤ b.2).

End Resolutions.

(** ** [utils/scaling_utils.py], remaining functions *)

(** [n / b] with an [int] numerator and a [float] denominator. *)
Definition truediv_int (n : Z) (b : float) : result float :=
  n_f ← ScalingUtils.float_of_int n;
  ScalingUtils.truediv n_f b.

Module ApplyScaling.
Import ScalingUtils.

Section host.

(** What the host contributes to [apply_texture_scaling]: the value a
    component of [obj.scale] holds after a Python float is assigned to it,
    and whether [bpy.context.view_layer.update()] returns normally. *)
Variable store : float → float.
Variable view_layer_update : bool.

(** The object's [scale] vector is passed in and returned with the result:
    it is the only state the function writes. Every exception raised in the
    [try] block ends in [return False]. *)
Definition apply_texture_scaling
    (obj : option Object) (scale : Vector) (tex_width tex_height : Z)
    (pixel_to_mm_ratio : float)
  : bool * Vector :=
  match obj with
  | None => (false, scale)
  | Some o =>
    if negb (String.eqb (type o) "MESH") then (false, scale)
    else
      match calculate_real_world_size tex_width tex_height
              pixel_to_mm_ratio with
      | Raise _ => (false, scale)
      | Ok (target_width, target_height) =>
        match calculate_scale_factors obj target_width target_height with
        | Raise _ => (false, scale)
        | Ok (scale_x, scale_y) =>
          let scale :=
            mkVector (store (PrimFloat.mul (x scale) scale_x))
              (y scale) (z scale) in
          let scale :=
            mkVector (x scale)
              (store (PrimFloat.mul (y scale) scale_y)) (z scale) in
          if view_layer_update then (true, scale) else (false, scale)
        end
      end
  end.

End host.

End ApplyScaling.

Module ScaleInfo.
Import ScalingUtils.

(** The dictionary returned by [get_object_texture_scale_info]; its initial
    integer zeros are written as floats. *)
Record scale_info : Set := mkScaleInfo {
  current_dimensions : float * float * float;
  target_dimensions : float * float;
  scale_factors : float * float;
  texture_size_mm : float * float;
  texture_size_m : float * float;
  valid : bool
}.

(** The [try] block assigns the entries one after the other; an exception
    returns the dictionary as filled so far. *)
Definition get_object_texture_scale_info
    (obj : option Object) (tex_width tex_height : Z)
    (pixel_to_mm_ratio : float)
  : scale_info :=
  let info :=
    mkScaleInfo (0, 0, 0)%float (0, 0)%float (1, 1)%float (0, 0)%float
      (0, 0)%float false in
  match obj with
  | None => info
  | Some o =>
    if negb (String.eqb (type o) "MESH") then info
    else
      let current_dims := copy (dimensions o) in
      let info :=
        mkScaleInfo (x current_dims, y current_dims, z current_dims)
          (target_dimensions info) (scale_factors info)
          (texture_size_mm info) (texture_size_m info) (valid info) in
      match calculate_real_world_size tex_width tex_height
              pixel_to_mm_ratio with
      | Raise _ => info
      | Ok (target_width, target_height) =>
        let info :=
          mkScaleInfo (current_dimensions info) (target_width, target_height)
            (scale_factors info) (texture_size_mm info)
            (texture_size_m info) (valid info) in
        match calculate_scale_factors obj target_width target_height with
        | Raise _ => info
        | Ok (scale_x, scale_y) =>
          let info :=
            mkScaleInfo (current_dimensions info) (target_dimensions info)
              (scale_x, scale_y) (texture_size_mm info)
              (texture_size_m info) (valid info) in
          match truediv_int tex_width pixel_to_mm_ratio with
          | Raise _ => info
          | Ok width_mm =>
            match truediv_int tex_height pixel_to_mm_ratio with
            | Raise _ => info
            | Ok height_mm =>
              mkScaleInfo (current_dimensions info) (target_dimensions info)
                (scale_factors info) (width_mm, height_mm)
                (target_width, target_height) true
            end
          end
        end
      end
  end.

End ScaleInfo.

Module TextureDensity.
Import ScalingUtils.



End TextureDensity.

(** * Properties of [utils/udim_utils.py] *)

Module UdimFacts.
Import UdimUtils Raster Samples.

(** *** The examples of the docstrings *)

Example parse_udim_number_docstring :
  parse_udim_number 1001 = Ok (0, 0)
  ∧ parse_udim_number 1002 = Ok (1, 0)
  ∧ parse_udim_number 1011 = Ok (0, 1).
Proof. by repeat split. Qed.

Example create_udim_number_docstring :
  create_udim_number 0 0 = Ok 1001
  ∧ create_udim_number 1 0 = Ok 1002
  ∧ create_udim_number 0 1 = Ok 1011.
Proof. by repeat split. Qed.

Example sort_udims_by_resolution_stable :
  let d := [(1002, tile 10 10); (1001, tile 10 10); (1003, tile 1 1);
            (1004, tile 20 20); (1005, tile 20 20)] in
  sort_udims_by_resolution d true = [1004; 1005; 1002; 1001; 1003]
  ∧ sort_udims_by_resolution d false = [1003; 1002; 1001; 1004; 1005].
Proof. by split. Qed.

(** *** Tile numbering *)

Lemma parse_udim_number_ok n :
  1001 ≤ n →
  parse_udim_number n = Ok ((n - 1001) `mod` 10, (n - 1001) `div` 10).
Proof.
  intros Hn. unfold parse_udim_number.
  destruct (Z.ltb_spec n 1001) as [Hlt|_]; [lia|done].
Qed.

Lemma create_udim_number_ok u v :
  0 ≤ u ≤ 9 → 0 ≤ v → create_udim_number u v = Ok (1001 + u + v * 10).
Proof.
  intros Hu Hv. unfold create_udim_number.
  destruct (Z.ltb_spec u 0); [lia|].
  destruct (Z.gtb_spec u 9); [lia|].
  destruct (Z.ltb_spec v 0); [lia|done].
Qed.

Lemma parse_udim_number_raises n :
  n < 1001 → parse_udim_number n = Raise ValueError.
Proof.
  intros Hn. unfold parse_udim_number.
  destruct (Z.ltb_spec n 1001); [done|lia].
Qed.

Lemma create_udim_number_raises u v :
  u < 0 ∨ 9 < u ∨ v < 0 → create_udim_number u v = Raise ValueError.
Proof.
  intros H. unfold create_udim_number.
  destruct (Z.ltb_spec u 0); [done|].
  destruct (Z.gtb_spec u 9); [done|].
  destruct (Z.ltb_spec v 0); [done|lia].
Qed.

(** The coordinates of a valid tile number are in range and recompose it. *)
Lemma offset_coordinates n :
  1001 ≤ n →
  0 ≤ (n - 1001) `mod` 10 ≤ 9 ∧ 0 ≤ (n - 1001) `div` 10
  ∧ 1001 + (n - 1001) `mod` 10 + (n - 1001) `div` 10 * 10 = n.
Proof.
  intros Hn.
  pose proof (Z.mod_pos_bound (n - 1001) 10 eq_refl).
  assert (0 ≤ (n - 1001) `div` 10) by (apply Z.div_pos; lia).
  pose proof (Z.div_mod (n - 1001) 10 ltac:(lia)).
  lia.
Qed.

(** C2. For every n >= 1001, [parse_udim_number n] returns a pair (u, v)
    with 0 <= u <= 9 and v >= 0, and [create_udim_number u v] succeeds and
    returns n. *)
Theorem create_parse_roundtrip (n : Z) :
  1001 ≤ n →
  ∃ u v : Z,
    parse_udim_number n = Ok (u, v)
    ∧ 0 ≤ u ≤ 9 ∧ 0 ≤ v
    ∧ create_udim_number u v = Ok n.
Proof.
  intros Hn. destruct (offset_coordinates n Hn) as (Hu & Hv & Heq).
  eexists _, _. split; [by apply parse_udim_number_ok|].
  split; [done|]. split; [done|].
  rewrite create_udim_number_ok by done. by rewrite Heq.
Qed.

Lemma create_parse_roundtrip_witness :
  1001 ≤ 1037
  ∧ ∃ u v : Z,
      parse_udim_number 1037 = Ok (u, v)
      ∧ 0 ≤ u ≤ 9 ∧ 0 ≤ v
      ∧ create_udim_number u v = Ok 1037.
Proof. split; [lia | apply (create_parse_roundtrip 1037); lia]. Defined.

(** C7. [parse_udim_number] raises [ValueError] exactly when its argument
    is below 1001 and succeeds otherwise; [create_udim_number] raises
    [ValueError] exactly when u is outside [0, 9] or v is negative and
    succeeds otherwise. *)
Theorem udim_number_errors :
  (∀ n : Z,
      (parse_udim_number n = Raise ValueError ↔ n < 1001)
      ∧ ((∃ c, parse_udim_number n = Ok c) ↔ 1001 ≤ n))
  ∧ (∀ u v : Z,
      (create_udim_number u v = Raise ValueError ↔ u < 0 ∨ 9 < u ∨ v < 0)
      ∧ ((∃ n, create_udim_number u v = Ok n) ↔ 0 ≤ u ≤ 9 ∧ 0 ≤ v)).
Proof.
  split.
  - intros n. destruct (Z.lt_ge_cases n 1001) as [Hn|Hn].
    + rewrite parse_udim_number_raises by done.
      split; [done|]. split; [by intros [c ?]|lia].
    + rewrite parse_udim_number_ok by done.
      split; [split; [done|lia]|]. split; [done|eauto].
  - intros u v.
    destruct (decide (0 ≤ u ≤ 9 ∧ 0 ≤ v)) as [[Hu Hv]|Hbad].
    + rewrite create_udim_number_ok by done.
      split; [split; [done|lia]|]. split; [done|eauto].
    + rewrite create_udim_number_raises by lia.
      split; [split; [lia|done]|]. split; [by intros [n ?]|done].
Qed.

(** *** Sequences *)

Lemma generate_loop_ok u v ixs udims :
  0 ≤ u ≤ 9 → 0 ≤ v → Forall (λ i, 0 ≤ i) ixs →
  generate_loop u v ixs udims
  = Ok (udims ++ (Z.add (1001 + u + v * 10) <$> ixs)).
Proof.
  intros Hu Hv Hixs. revert udims.
  induction Hixs as [|i ixs Hi _ IH]; intros udims; simpl.
  - by rewrite app_nil_r.
  - pose proof (Z.mod_pos_bound (u + i) 10 eq_refl).
    assert (0 ≤ (u + i) `div` 10) by (apply Z.div_pos; lia).
    pose proof (Z.div_mod (u + i) 10 ltac:(lia)).
    rewrite create_udim_number_ok by lia. simpl.
    rewrite IH, <-app_assoc. simpl. do 3 f_equal. lia.
Qed.

Lemma generate_udim_sequence_ok start count :
  1001 ≤ start → generate_udim_sequence start count = Ok (seqZ start count).
Proof.
  intros Hs. destruct (offset_coordinates start Hs) as (Hu & Hv & Heq).
  unfold generate_udim_sequence. rewrite parse_udim_number_ok by done. simpl.
  rewrite generate_loop_ok; [|done|done|].
  - simpl. unfold range, range2.
    by rewrite fmap_add_seqZ, Heq, Z.add_0_r, Z.sub_0_r.
  - apply Forall_seqZ. lia.
Qed.

(** One step along the tile numbers is one raster step on coordinates. *)
Lemma parse_udim_number_succ n c :
  parse_udim_number n = Ok c →
  parse_udim_number (n + 1) = Ok (raster_next c).
Proof.
  unfold parse_udim_number.
  destruct (Z.ltb_spec n 1001); [done|]. intros [= <-].
  destruct (Z.ltb_spec (n + 1) 1001); [lia|].
  unfold raster_next. f_equal.
  destruct (Z.eqb_spec ((n - 1001) `mod` 10) 9);
    f_equal; Z.div_mod_to_equations; lia.
Qed.

Lemma parse_udim_number_iter n c (i : nat) :
  parse_udim_number n = Ok c →
  parse_udim_number (n + Z.of_nat i) = Ok (Nat.iter i raster_next c).
Proof.
  intros Hn. induction i as [|i IH].
  - by rewrite Z.add_0_r.
  - replace (n + Z.of_nat (S i)) with (n + Z.of_nat i + 1) by lia.
    by apply parse_udim_number_succ.
Qed.

(** C4. For every start >= 1001 and every count n >= 0,
    [generate_udim_sequence start n] returns the list of n tile numbers
    start, start + 1, ..., whose i-th entry is the tile reached from start
    by i raster steps (u wraps from 9 to 0 while v is incremented); and
    [generate_udim_sequence 1001 10] is [1001; ...; 1010]. *)
Theorem generate_udim_sequence_raster :
  (∀ start n : Z,
      1001 ≤ start → 0 ≤ n →
      ∃ (udims : list Z) (c0 : Z * Z),
        generate_udim_sequence start n = Ok udims
        ∧ Z.of_nat (length udims) = n
        ∧ parse_udim_number start = Ok c0
        ∧ ∀ (i : nat) (t : Z),
            udims !! i = Some t →
            t = start + Z.of_nat i
            ∧ parse_udim_number t = Ok (Nat.iter i raster_next c0))
  ∧ generate_udim_sequence 1001 10
    = Ok [1001; 1002; 1003; 1004; 1005; 1006; 1007; 1008; 1009; 1010].
Proof.
  split; [|reflexivity].
  intros start n Hs Hn.
  exists (seqZ start n), ((start - 1001) `mod` 10, (start - 1001) `div` 10).
  split; [by apply generate_udim_sequence_ok|].
  split; [rewrite length_seqZ; lia|].
  split; [by apply parse_udim_number_ok|].
  intros i t [-> _]%lookup_seqZ. split; [done|].
  by apply parse_udim_number_iter, parse_udim_number_ok.
Qed.

Lemma generate_udim_sequence_raster_witness :
  1001 ≤ 1008 ∧ 0 ≤ 5
  ∧ ∃ (udims : list Z) (c0 : Z * Z),
      generate_udim_sequence 1008 5 = Ok udims
      ∧ Z.of_nat (length udims) = 5
      ∧ parse_udim_number 1008 = Ok c0
      ∧ ∀ (i : nat) (t : Z),
          udims !! i = Some t →
          t = 1008 + Z.of_nat i
          ∧ parse_udim_number t = Ok (Nat.iter i raster_next c0).
Proof.
  split; [lia|]. split; [lia|].
  apply (proj1 generate_udim_sequence_raster 1008 5); lia.
Defined.

(** *** The stable sort *)

Section sort_by.
Context {A : Type} (key : A → Z) (reverse : bool).

Let bef : A → A → bool := before key reverse.
Let R : relation A := λ a b, bef a b = true.

Lemma before_total a b : bef a b = false → bef b a = true.
Proof. unfold bef, before. destruct reverse; lia. Qed.

Lemma before_trans a b c : R a b → R b c → R a c.
Proof. unfold R, bef, before. destruct reverse; lia. Qed.

Lemma before_strict_l a b c : bef c b = false → R a b → R a c.
Proof. unfold R, bef, before. destruct reverse; lia. Qed.

Lemma insert_by_Permutation (f : A → A → bool) a l : insert_by f a l ≡ₚ a :: l.
Proof.
  induction l as [|b l IH]; simpl; [done|].
  destruct (f a b); [done|]. by rewrite IH, Permutation_swap.
Qed.

Lemma sort_by_Permutation l : sort_by key reverse l ≡ₚ l.
Proof.
  induction l as [|a l IH]; simpl; [done|].
  unfold sort_by in *. simpl. by rewrite insert_by_Permutation, IH.
Qed.

Lemma insert_by_sorted a l :
  StronglySorted R l → StronglySorted R (insert_by bef a l).
Proof.
  induction 1 as [|b l Hl IH Hb]; simpl.
  - by repeat constructor.
  - destruct (bef a b) eqn:Hab.
    + constructor; [by constructor|].
      constructor; [done|].
      eapply Forall_impl; [exact Hb|]. intros c Hbc. by eapply before_trans.
    + constructor; [done|].
      rewrite insert_by_Permutation. constructor; [|done].
      by apply before_total.
Qed.

Lemma sort_by_sorted l : StronglySorted R (sort_by key reverse l).
Proof.
  induction l as [|a l IH]; [constructor|].
  unfold sort_by in *. simpl. by apply insert_by_sorted.
Qed.

(** The head of the sorted list is the first element, in the original
    order, whose key is extreme: everything before it is strictly worse,
    everything after it is no better. *)
Lemma sort_by_head l :
  l ≠ [] →
  ∃ pre a post,
    l = pre ++ a :: post
    ∧ head (sort_by key reverse l) = Some a
    ∧ Forall (λ b, bef b a = false) pre
    ∧ Forall (λ b, bef a b = true) post.
Proof.
  induction l as [|a l IH]; [done|]. intros _.
  destruct l as [|b0 l0] eqn:El.
  { exists [], a, []. by repeat split. }
  destruct IH as (pre & b & post & Hl & Hhd & Hpre & Hpost); [done|].
  rewrite <-El in *. clear El b0 l0.
  unfold sort_by in *. simpl.
  destruct (foldr (insert_by (before key reverse)) [] l) as [|b' srt];
    [done|]. simpl in Hhd. injection Hhd as ->. simpl.
  fold bef. destruct (bef a b) eqn:Hab.
  - exists [], a, l. repeat split; [done|]. rewrite Hl.
    apply Forall_app. split; [|constructor; [done|]].
    + eapply Forall_impl; [exact Hpre|]. intros c Hc.
      exact (before_strict_l a b c Hc Hab).
    + eapply Forall_impl; [exact Hpost|]. intros c Hc.
      exact (before_trans a b c Hab Hc).
  - exists (a :: pre), b, post. rewrite Hl. repeat split; [|done].
    by constructor.
Qed.

End sort_by.

Lemma insert_by_fmap {A B : Type} (f : A → B) (g : B → B → bool) a l :
  insert_by g (f a) (f <$> l) = f <$> insert_by (λ x y, g (f x) (f y)) a l.
Proof.
  induction l as [|b l IH]; simpl; [done|].
  destruct (g (f a) (f b)); simpl; [done|]. f_equal. exact IH.
Qed.

Lemma sort_by_fmap {A B : Type} (f : A → B) (key : B → Z) reverse l :
  sort_by key reverse (f <$> l) = f <$> sort_by (key ∘ f) reverse l.
Proof.
  induction l as [|a l IH]; [done|].
  change (insert_by (before key reverse) (f a)
            (sort_by key reverse (f <$> l))
          = f <$> insert_by (before (key ∘ f) reverse) a
                    (sort_by (key ∘ f) reverse l)).
  rewrite IH, insert_by_fmap. reflexivity.
Qed.

Lemma StronglySorted_mono {A : Type} (R1 R2 : relation A) l :
  (∀ a b, R1 a b → R2 a b) → StronglySorted R1 l → StronglySorted R2 l.
Proof.
  intros HR. induction 1 as [|a l Hl IH Ha]; constructor; [done|].
  eapply Forall_impl; [exact Ha|]. intros b. apply HR.
Qed.

Lemma sort_by_ext {A : Type} (key1 key2 : A → Z) reverse l :
  (∀ a, key1 a = key2 a) → sort_by key1 reverse l = sort_by key2 reverse l.
Proof.
  intros Hk. unfold sort_by. induction l as [|a l IH]; simpl; [done|].
  rewrite IH. generalize (foldr (insert_by (before key2 reverse)) [] l).
  intros srt. induction srt as [|b srt IHs]; simpl; [done|].
  unfold before at 1 3. rewrite !Hk, IHs. done.
Qed.

Lemma sorted_Permutation l : sorted l ≡ₚ l.
Proof. apply sort_by_Permutation. Qed.

Lemma sorted_le l : StronglySorted Z.le (sorted l).
Proof.
  pose proof (sort_by_sorted id false l) as Hs.
  eapply StronglySorted_mono; [|exact Hs].
  intros a b. unfold before. simpl. lia.
Qed.

Lemma StronglySorted_le_lt (l : list Z) :
  NoDup l → StronglySorted Z.le l → StronglySorted Z.lt l.
Proof.
  intros Hnd. induction 1 as [|a l Hl IH Ha]; [constructor|].
  apply NoDup_cons in Hnd as [Hal Hnd].
  constructor; [by apply IH|].
  apply Forall_forall. intros b Hb.
  rewrite Forall_forall in Ha. specialize (Ha b Hb).
  assert (a ≠ b) by (by intros ->). lia.
Qed.

(** *** Minimum and maximum *)

Lemma foldl_min_spec a l :
  foldl Z.min a l ∈ a :: l ∧ ∀ k, k ∈ a :: l → foldl Z.min a l ≤ k.
Proof.
  revert a. induction l as [|b l IH]; intros a; simpl.
  - split; [by left|]. intros k ->%list_elem_of_singleton. lia.
  - destruct (IH (Z.min a b)) as [Hin Hle]. split.
    + apply elem_of_cons in Hin as [->|Hin].
      * destruct (Z.min_spec a b) as [[_ ->]|[_ ->]];
          [by left|by right; left].
      * by do 2 right.
    + intros k Hk. apply elem_of_cons in Hk as [->|Hk].
      * specialize (Hle (Z.min a b) ltac:(by left)). lia.
      * apply elem_of_cons in Hk as [->|Hk].
        -- specialize (Hle (Z.min a b) ltac:(by left)). lia.
        -- apply Hle. by right.
Qed.

Lemma foldl_max_spec a l :
  foldl Z.max a l ∈ a :: l ∧ ∀ k, k ∈ a :: l → k ≤ foldl Z.max a l.
Proof.
  revert a. induction l as [|b l IH]; intros a; simpl.
  - split; [by left|]. intros k ->%list_elem_of_singleton. lia.
  - destruct (IH (Z.max a b)) as [Hin Hle]. split.
    + apply elem_of_cons in Hin as [->|Hin].
      * destruct (Z.max_spec a b) as [[_ ->]|[_ ->]];
          [by right; left|by left].
      * by do 2 right.
    + intros k Hk. apply elem_of_cons in Hk as [->|Hk].
      * specialize (Hle (Z.max a b) ltac:(by left)). lia.
      * apply elem_of_cons in Hk as [->|Hk].
        -- specialize (Hle (Z.max a b) ltac:(by left)). lia.
        -- apply Hle. by right.
Qed.

Lemma get_udim_range_spec (d : dict udim_info) :
  d ≠ [] →
  ∃ lo hi,
    get_udim_range d = Ok (lo, hi)
    ∧ lo ∈ keys d ∧ hi ∈ keys d
    ∧ ∀ k, k ∈ keys d → lo ≤ k ≤ hi.
Proof.
  intros Hd. destruct d as [|[k0 i0] d]; [done|].
  unfold get_udim_range, keys. simpl.
  destruct (foldl_min_spec k0 d.*1) as [Hlo Hmin].
  destruct (foldl_max_spec k0 d.*1) as [Hhi Hmax].
  eexists _, _. split; [done|]. split; [done|]. split; [done|].
  intros k Hk. split; [by apply Hmin|by apply Hmax].
Qed.

(** *** Gaps *)

(** C3. For every non-empty tile dictionary, [get_udim_gaps] returns, in
    strictly ascending order, exactly the integers between the smallest and
    the largest tile number present (bounds included) that are not tile
    numbers of the dictionary; the gaps of {1001, 1003} are [1002] and
    those of {1001} are []. *)
Theorem get_udim_gaps_missing :
  (∀ d : dict udim_info,
      d ≠ [] →
      ∃ (lo hi : Z) (gaps : list Z),
        get_udim_range d = Ok (lo, hi)
        ∧ lo ∈ keys d ∧ hi ∈ keys d
        ∧ (∀ k, k ∈ keys d → lo ≤ k ≤ hi)
        ∧ get_udim_gaps d = Ok gaps
        ∧ StronglySorted Z.lt gaps
        ∧ ∀ n, n ∈ gaps ↔ lo ≤ n ≤ hi ∧ n ∉ keys d)
  ∧ (∀ i1 i3, get_udim_gaps [(1001, i1); (1003, i3)] = Ok [1002])
  ∧ (∀ i1, get_udim_gaps [(1001, i1)] = Ok []).
Proof.
  split; [|split; intros; by vm_compute].
  intros d Hd.
  destruct (get_udim_range_spec d Hd) as (lo & hi & Hrange & Hlo & Hhi & Hb).
  exists lo, hi,
    (sorted (elements ((list_to_set (range2 lo (hi + 1)) : gset Z)
                       ∖ list_to_set (keys d)))).
  split; [done|]. split; [done|]. split; [done|]. split; [done|]. split.
  { unfold get_udim_gaps. rewrite Hrange. by destruct d. }
  split.
  - apply StronglySorted_le_lt; [|apply sorted_le].
    rewrite sorted_Permutation. apply NoDup_elements.
  - intros n. rewrite sorted_Permutation, elem_of_elements.
    rewrite elem_of_difference, !elem_of_list_to_set.
    unfold range2. rewrite elem_of_seqZ. intuition lia.
Qed.

Lemma get_udim_gaps_missing_witness :
  let d := [(1010, tile 512 512); (1001, tile 64 64); (1005, tile 8 8)] in
  d ≠ []
  ∧ ∃ (lo hi : Z) (gaps : list Z),
      get_udim_range d = Ok (lo, hi)
      ∧ lo ∈ keys d ∧ hi ∈ keys d
      ∧ (∀ k, k ∈ keys d → lo ≤ k ≤ hi)
      ∧ get_udim_gaps d = Ok gaps
      ∧ StronglySorted Z.lt gaps
      ∧ ∀ n, n ∈ gaps ↔ lo ≤ n ≤ hi ∧ n ∉ keys d.
Proof.
  split; [discriminate|]. apply (proj1 get_udim_gaps_missing). discriminate.
Defined.

(** *** Selection *)

Lemma head_sort_udims_by_resolution (d : dict udim_info) descending :
  d ≠ [] →
  ∃ pre k info post,
    d = pre ++ (k, info) :: post
    ∧ head (sort_udims_by_resolution d descending) = Some k
    ∧ Forall (λ e, before (get_pixel_count ∘ snd) descending e (k, info)
                   = false) pre
    ∧ Forall (λ e, before (get_pixel_count ∘ snd) descending (k, info) e
                   = true) post.
Proof.
  intros Hd.
  destruct (sort_by_head (get_pixel_count ∘ snd) descending d Hd)
    as (pre & [k info] & post & Hsplit & Hhd & Hpre & Hpost).
  exists pre, k, info, post. split; [done|]. split; [|done].
  unfold sort_udims_by_resolution, items.
  rewrite (sort_by_fmap _ snd), <-list_fmap_compose.
  rewrite (sort_by_ext _ (get_pixel_count ∘ snd)) by (by intros [??]).
  destruct (sort_by _ _ d) as [|[k' info'] srt]; [done|].
  by injection Hhd as -> ->.
Qed.

(** In a dictionary listed in ascending tile order, the entry that splits
    it has the smallest tile number among the entries at or after it, and
    a larger one than those before it. *)
Lemma ascending_keys_split (pre post : dict udim_info) k info k' info' :
  StronglySorted Z.lt (keys (pre ++ (k, info) :: post)) →
  (k', info') ∈ pre ++ (k, info) :: post →
  (k', info') ∈ pre ∨ k ≤ k'.
Proof.
  unfold keys. rewrite fmap_app, fmap_cons. simpl.
  intros [Hpost _]%StronglySorted_app_1_r%StronglySorted_cons.
  intros [?|[[= -> ->]|Hin]%elem_of_cons]%elem_of_app; [by left|right..].
  - lia.
  - rewrite Forall_forall in Hpost.
    assert (k' ∈ post.*1) as Hk' by (apply list_elem_of_fmap; by exists (k', info')).
    specialize (Hpost k' Hk'). lia.
Qed.

Lemma select_optimal_udim_largest (d : dict udim_info) :
  d ≠ [] →
  select_optimal_udim d "LARGEST"
  = Ok (head (sort_udims_by_resolution d true)).
Proof. by destruct d. Qed.

Lemma select_optimal_udim_smallest (d : dict udim_info) :
  d ≠ [] →
  select_optimal_udim d "SMALLEST"
  = Ok (head (sort_udims_by_resolution d false)).
Proof. by destruct d. Qed.

(** C1 (as the code has it). For every non-empty dictionary,
    [select_optimal_udim] with mode LARGEST returns a tile whose pixel count
    width*height is maximal and with mode SMALLEST one whose pixel count is
    minimal; among tiles sharing the extreme pixel count it returns the one
    that comes first in the dictionary's iteration (insertion) order, which
    is the smallest tile number whenever the dictionary lists its tiles in
    ascending order. Mode LARGEST over {1001:(50,50), 1002:(200,200)}
    returns 1002. *)
Theorem select_optimal_udim_first_extreme :
  (∀ d : dict udim_info,
      d ≠ [] →
      (∃ pre k info post,
          d = pre ++ (k, info) :: post
          ∧ select_optimal_udim d "LARGEST" = Ok (Some k)
          ∧ Forall (λ e, get_pixel_count e.2 < get_pixel_count info) pre
          ∧ Forall (λ e, get_pixel_count e.2 ≤ get_pixel_count info) post
          ∧ (StronglySorted Z.lt (keys d) →
             ∀ k' info', (k', info') ∈ d →
               get_pixel_count info' = get_pixel_count info → k ≤ k'))
      ∧ (∃ pre k info post,
          d = pre ++ (k, info) :: post
          ∧ select_optimal_udim d "SMALLEST" = Ok (Some k)
          ∧ Forall (λ e, get_pixel_count info < get_pixel_count e.2) pre
          ∧ Forall (λ e, get_pixel_count info ≤ get_pixel_count e.2) post
          ∧ (StronglySorted Z.lt (keys d) →
             ∀ k' info', (k', info') ∈ d →
               get_pixel_count info' = get_pixel_count info → k ≤ k')))
  ∧ select_optimal_udim [(1001, tile 50 50); (1002, tile 200 200)] "LARGEST"
    = Ok (Some 1002).
Proof.
  split; [|reflexivity].
  intros d Hd. split.
  - destruct (head_sort_udims_by_resolution d true Hd)
      as (pre & k & info & post & Hsplit & Hhd & Hpre & Hpost).
    exists pre, k, info, post. split; [done|].
    split; [by rewrite select_optimal_udim_largest, Hhd|].
    assert (Forall (λ e, get_pixel_count e.2 < get_pixel_count info) pre)
      as Hpre'.
    { eapply Forall_impl; [exact Hpre|].
      intros [??]. unfold before. simpl. lia. }
    split; [done|]. split.
    { eapply Forall_impl; [exact Hpost|].
      intros [??]. unfold before. simpl. lia. }
    intros Hasc k' info' Hin Htie. rewrite Hsplit in Hasc, Hin.
    destruct (ascending_keys_split _ _ _ _ _ _ Hasc Hin) as [Hin'|?]; [|done].
    rewrite Forall_forall in Hpre'. specialize (Hpre' _ Hin'). simpl in *. lia.
  - destruct (head_sort_udims_by_resolution d false Hd)
      as (pre & k & info & post & Hsplit & Hhd & Hpre & Hpost).
    exists pre, k, info, post. split; [done|].
    split; [by rewrite select_optimal_udim_smallest, Hhd|].
    assert (Forall (λ e, get_pixel_count info < get_pixel_count e.2) pre)
      as Hpre'.
    { eapply Forall_impl; [exact Hpre|].
      intros [??]. unfold before. simpl. lia. }
    split; [done|]. split.
    { eapply Forall_impl; [exact Hpost|].
      intros [??]. unfold before. simpl. lia. }
    intros Hasc k' info' Hin Htie. rewrite Hsplit in Hasc, Hin.
    destruct (ascending_keys_split _ _ _ _ _ _ Hasc Hin) as [Hin'|?]; [|done].
    rewrite Forall_forall in Hpre'. specialize (Hpre' _ Hin'). simpl in *. lia.
Qed.

Lemma select_optimal_udim_first_extreme_witness :
  let d := [(1003, tile 64 64); (1002, tile 128 128); (1001, tile 128 128)] in
  d ≠ []
  ∧ ∃ pre k info post,
      d = pre ++ (k, info) :: post
      ∧ select_optimal_udim d "LARGEST" = Ok (Some k)
      ∧ Forall (λ e, get_pixel_count e.2 < get_pixel_count info) pre
      ∧ Forall (λ e, get_pixel_count e.2 ≤ get_pixel_count info) post
      ∧ (StronglySorted Z.lt (keys d) →
         ∀ k' info', (k', info') ∈ d →
           get_pixel_count info' = get_pixel_count info → k ≤ k').
Proof.
  split; [discriminate|].
  apply (proj1 select_optimal_udim_first_extreme). discriminate.
Defined.

(** C1 as stated fails: in the dictionary {1002: 10x10, 1001: 10x10} both
    tiles share the extreme pixel count 100, and both modes return 1002,
    the first inserted, not the smallest tile number 1001. *)
Lemma select_optimal_udim_tie_counterexample :
  let d := [(1002, tile 10 10); (1001, tile 10 10)] in
  NoDup (keys d)
  ∧ Forall (λ e, get_pixel_count e.2 = 100) d
  ∧ 1001 ∈ keys d
  ∧ select_optimal_udim d "LARGEST" = Ok (Some 1002)
  ∧ select_optimal_udim d "SMALLEST" = Ok (Some 1002)
  ∧ 1001 < 1002.
Proof.
  simpl. split; [|split; [|split; [|split; [|split]]]].
  - apply NoDup_cons. split; [|apply NoDup_singleton].
    by intros [=]%list_elem_of_singleton.
  - by repeat constructor.
  - by right; left.
  - reflexivity.
  - reflexivity.
  - lia.
Qed.

(** C8. On the empty dictionary [select_optimal_udim] returns [None] in
    every mode, without raising. *)
Theorem select_optimal_udim_empty (mode : string) :
  select_optimal_udim [] mode = Ok None.
Proof. reflexivity. Qed.

End UdimFacts.

(** * Properties of [utils/scaling_utils.py] *)

Module ScalingFacts.
Import UdimUtils ScalingUtils.

(** *** Conversion of integers, on examples *)

(** Exact below 2^53, ties to even above, [OverflowError] from the first
    integer that rounds to 2^1024. *)
Example float_of_int_examples :
  float_of_int 1000 = Ok 1000%float
  ∧ float_of_int (-5) = Ok (-5)%float
  ∧ float_of_int (2 ^ 53 + 1) = Ok 9007199254740992%float
  ∧ float_of_int (2 ^ 53 + 3) = Ok 9007199254740996%float
  ∧ float_of_int (2 ^ 1024 - 2 ^ 970 - 1)
    = Ok 0x1.fffffffffffffp+1023%float
  ∧ float_of_int (2 ^ 1024 - 2 ^ 970) = Raise OverflowError.
Proof. by repeat split. Qed.

(** *** Float comparisons against zero *)

Lemma eqb_zero_of_positive (r : float) :
  PrimFloat.ltb 0 r = true → PrimFloat.eqb r 0 = false.
Proof.
  rewrite FloatAxioms.ltb_spec, FloatAxioms.eqb_spec.
  change (Prim2SF 0) with (S754_zero false).
  by destruct (Prim2SF r) as [[]|[]| |[] m e].
Qed.

Lemma eqb_zero_of_not_leb (r : float) :
  PrimFloat.leb r 0 = false → PrimFloat.eqb r 0 = false.
Proof.
  rewrite FloatAxioms.leb_spec, FloatAxioms.eqb_spec.
  change (Prim2SF 0) with (S754_zero false).
  by destruct (Prim2SF r) as [[]|[]| |[] m e].
Qed.

(** *** Integers that convert to floats *)

Lemma digits2_pos_iter_xO m d :
  Z.pos (digits2_pos (Pos.iter xO m d)) = Z.pos (digits2_pos m) + Z.pos d.
Proof.
  apply (Pos.iter_ind _ xO m
           (λ p a, Z.pos (digits2_pos a) = Z.pos (digits2_pos m) + Z.pos p)).
  - simpl. lia.
  - intros p a IH. simpl. lia.
Qed.

Lemma digits2_pos_lower m : 2 ^ (Z.pos (digits2_pos m) - 1) ≤ Z.pos m.
Proof.
  induction m as [m IH|m IH|]; simpl digits2_pos; [| |simpl; lia].
  all: rewrite Pos2Z.inj_succ.
  all: replace (Z.succ (Z.pos (digits2_pos m)) - 1)
         with (Z.succ (Z.pos (digits2_pos m) - 1)) by lia.
  all: rewrite Z.pow_succ_r by lia; lia.
Qed.

Lemma digits2_pos_small m : Z.pos m < 2 ^ 53 → Z.pos (digits2_pos m) ≤ 53.
Proof.
  intros Hm.
  destruct (Z.le_gt_cases (Z.pos (digits2_pos m)) 53) as [|Hd]; [done|].
  pose proof (digits2_pos_lower m).
  assert (2 ^ 53 ≤ 2 ^ (Z.pos (digits2_pos m) - 1))
    by (apply Z.pow_le_mono_r; lia).
  lia.
Qed.

(** A 53-bit mantissa with an exponent in range needs no shift. *)
Lemma shr_fexp_exact mz ez :
  Z.pos (digits2_pos mz) = 53 → -1074 ≤ ez →
  shr_fexp prec emax (Z.pos mz) ez loc_Exact
  = (Build_shr_record (Z.pos mz) false false, ez).
Proof.
  intros Hd He. unfold shr_fexp, Zdigits2. rewrite Hd.
  assert (fexp prec emax (53 + ez) - ez = 0) as ->
    by (unfold fexp, SpecFloat.emin, prec, emax; lia).
  reflexivity.
Qed.

Lemma binary_round_aux_exact s mz ez :
  Z.pos (digits2_pos mz) = 53 → -1074 ≤ ez ≤ 971 →
  binary_round_aux prec emax s (Z.pos mz) ez loc_Exact = S754_finite s mz ez.
Proof.
  intros Hd He. unfold binary_round_aux.
  rewrite shr_fexp_exact by lia.
  cbv beta iota delta [shr_m loc_of_shr_record round_nearest_even].
  rewrite shr_fexp_exact by lia.
  cbv beta iota delta [shr_m].
  destruct (Z.leb_spec ez (emax - prec)) as [|Hgt]; [done|].
  unfold emax, prec in Hgt. lia.
Qed.

Lemma binary_round_small s m :
  Z.pos m < 2 ^ 53 →
  ∃ mz ez, binary_round prec emax s m 0 = S754_finite s mz ez.
Proof.
  intros Hm. pose proof (digits2_pos_small m Hm) as Hd.
  unfold binary_round.
  assert (fexp prec emax (Z.pos (digits2_pos m) + 0)
          = Z.pos (digits2_pos m) - 53) as ->
    by (unfold fexp, SpecFloat.emin, prec, emax; lia).
  unfold shl_align.
  destruct (Z.pos (digits2_pos m) - 53 - 0) as [|d|d] eqn:E; [|lia|].
  - exists m, 0. apply binary_round_aux_exact; lia.
  - exists (Pos.iter xO m d), (Z.pos (digits2_pos m) - 53).
    apply binary_round_aux_exact; [rewrite digits2_pos_iter_xO|]; lia.
Qed.

(** Every integer of magnitude below 2^53, so every pixel count of an
    image, converts without [OverflowError]. *)
Lemma float_of_int_small (n : Z) :
  Z.abs n < 2 ^ 53 → ∃ f, float_of_int n = Ok f.
Proof.
  intros Hn. unfold float_of_int, binary_normalize.
  destruct n as [|m|m].
  - by eexists.
  - destruct (binary_round_small false m) as (mz & ez & ->); [lia|].
    by eexists.
  - destruct (binary_round_small true m) as (mz & ez & ->); [lia|].
    by eexists.
Qed.

(** *** Conversions *)

Lemma pixels_to_blender_units_ok (p : Z) (r pf : float) :
  float_of_int p = Ok pf →
  PrimFloat.eqb r 0 = false →
  pixels_to_blender_units p r
  = Ok (PrimFloat.div (PrimFloat.div pf r) 1000).
Proof.
  intros Hp Hr. unfold pixels_to_blender_units, truediv.
  rewrite Hp. simpl. rewrite Hr. reflexivity.
Qed.

Lemma calculate_scale_factors_ok (o : Object) (tw th : float) :
  PrimFloat.eqb (x (dimensions o)) 0 = false →
  PrimFloat.eqb (y (dimensions o)) 0 = false →
  calculate_scale_factors (Some o) tw th
  = Ok (PrimFloat.div tw (x (dimensions o)),
        PrimFloat.div th (y (dimensions o))).
Proof.
  intros Hx Hy. unfold calculate_scale_factors, truediv. simpl.
  rewrite Hx, Hy. reflexivity.
Qed.

(** C9 (as the code has it). For every pixel count p that converts to a
    float pf (as every p of magnitude below 2^53 does) and every positive
    ratio r, [pixels_to_blender_units p r] returns pf / r / 1000;
    [pixels_to_blender_units 1000 1.0] is 1.0. *)
Theorem pixels_to_blender_units_formula :
  (∀ (p : Z) (r pf : float),
      float_of_int p = Ok pf →
      PrimFloat.ltb 0 r = true →
      pixels_to_blender_units p r
      = Ok (PrimFloat.div (PrimFloat.div pf r) 1000))
  ∧ pixels_to_blender_units 1000 1 = Ok 1%float.
Proof.
  split; [|reflexivity].
  intros p r pf Hp Hr.
  by apply pixels_to_blender_units_ok, eqb_zero_of_positive.
Qed.

Lemma pixels_to_blender_units_formula_witness :
  float_of_int 4096 = Ok 4096%float
  ∧ PrimFloat.ltb 0 2 = true
  ∧ pixels_to_blender_units 4096 2
    = Ok (PrimFloat.div (PrimFloat.div 4096 2) 1000).
Proof.
  split; [reflexivity|]. split; [reflexivity|].
  apply (proj1 pixels_to_blender_units_formula); reflexivity.
Defined.

(** C9 as stated fails: the pixel count 2^1024 with the positive ratio 1.0
    makes the first division raise [OverflowError]; nothing is returned. *)
Lemma pixels_to_blender_units_overflow_counterexample :
  PrimFloat.ltb 0 1 = true
  ∧ pixels_to_blender_units (2 ^ 1024) 1 = Raise OverflowError.
Proof. split; reflexivity. Qed.

(** C5. For an object whose current x and y dimensions are both non-zero,
    [calculate_scale_factors] returns the pair of quotients
    (target_width / current x, target_height / current y); with current
    dimensions (2, 2) and targets (4, 4) it returns (2.0, 2.0). *)
Theorem calculate_scale_factors_nonzero :
  (∀ (o : Object) (target_width target_height : float),
      PrimFloat.eqb (x (dimensions o)) 0 = false →
      PrimFloat.eqb (y (dimensions o)) 0 = false →
      calculate_scale_factors (Some o) target_width target_height
      = Ok (PrimFloat.div target_width (x (dimensions o)),
            PrimFloat.div target_height (y (dimensions o))))
  ∧ calculate_scale_factors (Some (mkObject "MESH" (mkVector 2 2 0))) 4 4
    = Ok (2%float, 2%float).
Proof.
  split; [|reflexivity].
  intros o tw th Hx Hy. by apply calculate_scale_factors_ok.
Qed.

Lemma calculate_scale_factors_nonzero_witness :
  let o := mkObject "MESH" (mkVector 0.5 4 1) in
  PrimFloat.eqb (x (dimensions o)) 0 = false
  ∧ PrimFloat.eqb (y (dimensions o)) 0 = false
  ∧ calculate_scale_factors (Some o) 2 1
    = Ok (PrimFloat.div 2 (x (dimensions o)),
          PrimFloat.div 1 (y (dimensions o))).
Proof.
  split; [reflexivity|]. split; [reflexivity|].
  apply (proj1 calculate_scale_factors_nonzero); reflexivity.
Defined.

(** C10. [calculate_scale_factors] always returns a pair and never raises
    (in particular no [ZeroDivisionError]); when the object is absent, or
    its current x or y dimension equals zero, the pair is (1.0, 1.0). *)
Theorem calculate_scale_factors_total :
  (∀ (obj : option Object) (target_width target_height : float),
      ∃ scale_x scale_y,
        calculate_scale_factors obj target_width target_height
        = Ok (scale_x, scale_y))
  ∧ (∀ target_width target_height : float,
        calculate_scale_factors None target_width target_height
        = Ok (1%float, 1%float))
  ∧ (∀ (o : Object) (target_width target_height : float),
        PrimFloat.eqb (x (dimensions o)) 0 = true
        ∨ PrimFloat.eqb (y (dimensions o)) 0 = true →
        calculate_scale_factors (Some o) target_width target_height
        = Ok (1%float, 1%float)).
Proof.
  split; [|split].
  - intros [o|] tw th; [|by eexists _, _].
    unfold calculate_scale_factors, truediv. simpl.
    destruct (PrimFloat.eqb (x (dimensions o)) 0) eqn:Hx;
      [by eexists _, _|].
    destruct (PrimFloat.eqb (y (dimensions o)) 0) eqn:Hy;
      by eexists _, _.
  - reflexivity.
  - intros o tw th Hzero. unfold calculate_scale_factors. simpl.
    destruct Hzero as [-> | ->]; [done|].
    by rewrite orb_true_r.
Qed.

Lemma calculate_scale_factors_total_witness :
  let o := mkObject "MESH" (mkVector 3 (-0) 1) in
  (PrimFloat.eqb (x (dimensions o)) 0 = true
   ∨ PrimFloat.eqb (y (dimensions o)) 0 = true)
  ∧ calculate_scale_factors (Some o) 2 2 = Ok (1%float, 1%float).
Proof.
  split; [right; reflexivity|].
  apply (proj2 (proj2 calculate_scale_factors_total)). right; reflexivity.
Defined.

(** *** Validation *)

Lemma warn_if_errors c msg r : errors (warn_if c msg r) = errors r.
Proof. by destruct c. Qed.

Lemma warn_if_valid c msg r : valid (warn_if c msg r) = valid r.
Proof. by destruct c. Qed.

Lemma warn_if_keeps c msg r w :
  w ∈ warnings r → w ∈ warnings (warn_if c msg r).
Proof. destruct c; simpl; [|done]. intros. apply elem_of_app. by left. Qed.

Lemma warn_if_adds msg r : msg ∈ warnings (warn_if true msg r).
Proof. simpl. apply elem_of_app. right. by left. Qed.

(** Invalid numeric input stops the validation with an error. *)
Lemma validate_scaling_parameters_invalid o tw th ratio :
  type o = "MESH"%string →
  tw ≤ 0 ∨ th ≤ 0 ∨ PrimFloat.leb ratio 0 = true →
  ∃ r, validate_scaling_parameters (Some o) tw th ratio = Ok r
       ∧ can_proceed r = false ∧ valid r = false ∧ errors r ≠ [].
Proof.
  intros Hty Hbad. unfold validate_scaling_parameters. rewrite Hty. simpl.
  destruct (Z.leb_spec tw 0); [by eexists|].
  destruct (Z.leb_spec th 0); [by eexists|]. simpl.
  destruct Hbad as [?|[?|Hr]]; [lia..|]. rewrite Hr.
  eexists. split; [done|].
  by destruct ((tw >? 16384) || (th >? 16384)).
Qed.

(** C6 (as the code has it). For a mesh object with non-zero x and y
    dimensions: a non-positive texture width or height, or a non-positive
    ratio, makes [validate_scaling_parameters] return a result with an error
    recorded and [can_proceed] false; on every other input whose texture
    dimensions convert to floats (as all of magnitude below 2^53 do) it
    returns a result without errors and with [can_proceed] true, extreme
    ratios (above 100, below 0.01) and scale factors above 1000 or below
    0.001 only adding their warning. *)
Theorem validate_scaling_parameters_blocking
    (o : Object) (tex_width tex_height : Z) (ratio : float) :
  type o = "MESH"%string →
  PrimFloat.eqb (x (dimensions o)) 0 = false →
  PrimFloat.eqb (y (dimensions o)) 0 = false →
  (tex_width ≤ 0 ∨ tex_height ≤ 0 ∨ PrimFloat.leb ratio 0 = true →
   ∃ r, validate_scaling_parameters (Some o) tex_width tex_height ratio = Ok r
        ∧ can_proceed r = false ∧ valid r = false ∧ errors r ≠ [])
  ∧ (0 < tex_width → 0 < tex_height → PrimFloat.leb ratio 0 = false →
     ∀ fw fh : float,
       float_of_int tex_width = Ok fw →
       float_of_int tex_height = Ok fh →
       let scale_x :=
         PrimFloat.div (PrimFloat.div (PrimFloat.div fw ratio) 1000)
           (x (dimensions o)) in
       let scale_y :=
         PrimFloat.div (PrimFloat.div (PrimFloat.div fh ratio) 1000)
           (y (dimensions o)) in
       ∃ r,
         validate_scaling_parameters (Some o) tex_width tex_height ratio = Ok r
         ∧ can_proceed r = true ∧ valid r = true ∧ errors r = []
         ∧ (gtb ratio 100 = true →
            "Very high pixel density - object will be very small"%string
              ∈ warnings r)
         ∧ (PrimFloat.ltb ratio 0.01 = true →
            "Very low pixel density - object will be very large"%string
              ∈ warnings r)
         ∧ (gtb scale_x 1000 || gtb scale_y 1000 = true →
            "Very large scale factors - object will become huge"%string
              ∈ warnings r)
         ∧ (PrimFloat.ltb scale_x 0.001 || PrimFloat.ltb scale_y 0.001 = true →
            "Very small scale factors - object will become tiny"%string
              ∈ warnings r)).
Proof.
  intros Hty Hx Hy. split; [by apply validate_scaling_parameters_invalid|].
  intros Hw Hh Hr fw fh Hfw Hfh scale_x scale_y.
  pose proof (eqb_zero_of_not_leb ratio Hr) as Hr0.
  unfold validate_scaling_parameters, calculate_real_world_size.
  rewrite Hty. simpl.
  destruct (Z.leb_spec tex_width 0); [lia|].
  destruct (Z.leb_spec tex_height 0); [lia|]. simpl.
  rewrite Hr, Hx, Hy. simpl.
  rewrite (pixels_to_blender_units_ok _ _ _ Hfw Hr0). simpl.
  rewrite (pixels_to_blender_units_ok _ _ _ Hfh Hr0). simpl.
  unfold truediv. rewrite Hx, Hy. simpl.
  fold scale_x scale_y.
  eexists. split; [reflexivity|]. simpl.
  rewrite !warn_if_errors. simpl.
  split; [done|]. split; [done|]. split; [done|].
  split; [|split; [|split]].
  - intros ->. do 3 apply warn_if_keeps. apply warn_if_adds.
  - intros ->. do 2 apply warn_if_keeps. apply warn_if_adds.
  - intros ->. apply warn_if_keeps. apply warn_if_adds.
  - intros ->. apply warn_if_adds.
Qed.

Lemma validate_scaling_parameters_blocking_witness :
  let o := mkObject "MESH" (mkVector 2 2 0) in
  type o = "MESH"%string
  ∧ PrimFloat.eqb (x (dimensions o)) 0 = false
  ∧ PrimFloat.eqb (y (dimensions o)) 0 = false
  ∧ (∃ r, validate_scaling_parameters (Some o) 0 1024 1 = Ok r
          ∧ can_proceed r = false ∧ valid r = false ∧ errors r ≠ [])
  ∧ (∃ r, validate_scaling_parameters (Some o) 4096 4096 200 = Ok r
          ∧ can_proceed r = true ∧ valid r = true ∧ errors r = []
          ∧ "Very high pixel density - object will be very small"%string
              ∈ warnings r).
Proof.
  simpl. split; [reflexivity|]. split; [reflexivity|]. split; [reflexivity|].
  split.
  - apply (validate_scaling_parameters_blocking
             (mkObject "MESH" (mkVector 2 2 0)) 0 1024 1);
      [reflexivity..|]. left. lia.
  - destruct (proj2 (validate_scaling_parameters_blocking
                       (mkObject "MESH" (mkVector 2 2 0)) 4096 4096 200
                       eq_refl eq_refl eq_refl)
                ltac:(lia) ltac:(lia) eq_refl 4096%float 4096%float
                eq_refl eq_refl)
      as (r & Hr & Hcp & Hv & He & Hhigh & _).
    exists r. repeat (split; [assumption|]). apply Hhigh. reflexivity.
Defined.

(** C6 as stated fails: with a mesh of dimensions 2 x 2, positive texture
    dimensions 2^1024 x 1 and the positive ratio 1.0, the call raises
    [OverflowError] in the size computation; no result with [can_proceed]
    true is returned. *)
Lemma validate_scaling_parameters_overflow_counterexample :
  0 < 2 ^ 1024
  ∧ PrimFloat.leb 1 0 = false
  ∧ validate_scaling_parameters
      (Some (mkObject "MESH" (mkVector 2 2 0))) (2 ^ 1024) 1 1
    = Raise OverflowError.
Proof. split; [done|]. split; reflexivity. Qed.

End ScalingFacts.

(** * Further properties of [utils/udim_utils.py] *)

Module UdimMore.
Import UdimUtils UdimReports Raster Samples Resolutions UdimFacts.

(** *** Numbering *)

(** X1. For valid coordinates (0 <= u <= 9, v >= 0) [create_udim_number]
    returns a tile number n >= 1001 that [parse_udim_number] maps back to
    (u, v); so two valid coordinates with the same tile number are equal. *)
Theorem parse_create_roundtrip (u v : Z) :
  0 ≤ u ≤ 9 → 0 ≤ v →
  ∃ n : Z,
    create_udim_number u v = Ok n
    ∧ 1001 ≤ n
    ∧ parse_udim_number n = Ok (u, v)
    ∧ ∀ u' v' : Z, 0 ≤ u' ≤ 9 → 0 ≤ v' →
        create_udim_number u' v' = Ok n → u' = u ∧ v' = v.
Proof.
  intros Hu Hv. exists (1001 + u + v * 10).
  split; [by apply create_udim_number_ok|]. split; [lia|]. split.
  - rewrite parse_udim_number_ok by lia. do 2 f_equal.
    + replace (1001 + u + v * 10 - 1001) with (u + v * 10) by lia.
      rewrite Z.mod_add by lia. apply Z.mod_small. lia.
    + replace (1001 + u + v * 10 - 1001) with (u + v * 10) by lia.
      rewrite Z.div_add by lia. rewrite Z.div_small by lia. lia.
  - intros u' v' Hu' Hv'. rewrite create_udim_number_ok by done.
    intros [= Heq]. lia.
Qed.

Lemma parse_create_roundtrip_witness :
  0 ≤ 7 ≤ 9 ∧ 0 ≤ 3
  ∧ ∃ n : Z,
      create_udim_number 7 3 = Ok n
      ∧ 1001 ≤ n
      ∧ parse_udim_number n = Ok (7, 3)
      ∧ ∀ u' v' : Z, 0 ≤ u' ≤ 9 → 0 ≤ v' →
          create_udim_number u' v' = Ok n → u' = 7 ∧ v' = 3.
Proof.
  split; [lia|]. split; [lia|]. apply (parse_create_roundtrip 7 3); lia.
Defined.

(** *** Sequences *)

(** X2. [generate_udim_sequence] checks its start before it looks at the
    count: a start below 1001 raises [ValueError] whatever the count is, zero
    and negative counts included; with a valid start a count of zero or less
    gives the empty list. *)
Theorem generate_udim_sequence_edges (start count : Z) :
  (start < 1001 → generate_udim_sequence start count = Raise ValueError)
  ∧ (1001 ≤ start → count ≤ 0 → generate_udim_sequence start count = Ok []).
Proof.
  split.
  - intros Hs. unfold generate_udim_sequence.
    by rewrite parse_udim_number_raises.
  - intros Hs Hc. rewrite generate_udim_sequence_ok by done.
    by rewrite seqZ_nil.
Qed.

Lemma generate_udim_sequence_edges_witness :
  (1000 < 1001 → generate_udim_sequence 1000 0 = Raise ValueError)
  ∧ (1001 ≤ 1001 → -4 ≤ 0 → generate_udim_sequence 1001 (-4) = Ok []).
Proof.
  split.
  - apply (proj1 (generate_udim_sequence_edges 1000 0)).
  - apply (proj2 (generate_udim_sequence_edges 1001 (-4))).
Defined.

(** X3. Sequences concatenate: for a valid start and counts a, b >= 0, the
    sequence of a + b tiles from start is the sequence of a tiles from start
    followed by the sequence of b tiles from start + a. *)
Theorem generate_udim_sequence_app (start a b : Z) :
  1001 ≤ start → 0 ≤ a → 0 ≤ b →
  ∃ l1 l2 : list Z,
    generate_udim_sequence start a = Ok l1
    ∧ generate_udim_sequence (start + a) b = Ok l2
    ∧ generate_udim_sequence start (a + b) = Ok (l1 ++ l2).
Proof.
  intros Hs Ha Hb. exists (seqZ start a), (seqZ (start + a) b).
  rewrite !generate_udim_sequence_ok by lia.
  by rewrite seqZ_app.
Qed.

Lemma generate_udim_sequence_app_witness :
  1001 ≤ 1008 ∧ 0 ≤ 3 ∧ 0 ≤ 4
  ∧ ∃ l1 l2 : list Z,
      generate_udim_sequence 1008 3 = Ok l1
      ∧ generate_udim_sequence (1008 + 3) 4 = Ok l2
      ∧ generate_udim_sequence 1008 (3 + 4) = Ok (l1 ++ l2).
Proof.
  split; [lia|]. split; [lia|]. split; [lia|].
  apply (generate_udim_sequence_app 1008 3 4); lia.
Defined.

(** *** Selection *)

Lemma min_ok (a : Z) (l : list Z) :
  ∃ m, min_ (a :: l) = Ok m ∧ m ∈ a :: l ∧ ∀ k, k ∈ a :: l → m ≤ k.
Proof.
  exists (foldl Z.min a l). split; [done|]. apply foldl_min_spec.
Qed.

Lemma select_optimal_udim_default (d : dict udim_info) (mode : string) :
  d ≠ [] → mode ≠ "LARGEST"%string → mode ≠ "SMALLEST"%string →
  select_optimal_udim d mode = Some <$> min_ (keys d).
Proof.
  intros Hd Hl Hs. unfold select_optimal_udim.
  destruct d; [done|]. simpl is_empty. cbv iota.
  destruct (String.eqb_spec mode "FIRST"); [done|].
  destruct (String.eqb_spec mode "LARGEST"); [done|].
  by destruct (String.eqb_spec mode "SMALLEST").
Qed.

Lemma select_optimal_udim_first_is_min_aux
    (d : dict udim_info) (mode : string) :
  d ≠ [] → mode ≠ "LARGEST"%string → mode ≠ "SMALLEST"%string →
  ∃ k : Z,
    select_optimal_udim d mode = Ok (Some k)
    ∧ k ∈ keys d ∧ ∀ k', k' ∈ keys d → k ≤ k'.
Proof.
  intros Hd Hl Hs. rewrite select_optimal_udim_default by done.
  destruct d as [|[k0 i0] d]; [done|].
  destruct (min_ok k0 (keys d)) as (m & Hm & Hin & Hle).
  exists m. change (keys ((k0, i0) :: d)) with (k0 :: keys d).
  by rewrite Hm.
Qed.

(** X4. In every mode other than LARGEST and SMALLEST ("FIRST", "MANUAL",
    a lower-case "largest", any other string) [select_optimal_udim] on a
    non-empty dictionary returns the smallest tile number present. *)
Theorem select_optimal_udim_first_is_min (d : dict udim_info) (mode : string) :
  d ≠ [] → mode ≠ "LARGEST"%string → mode ≠ "SMALLEST"%string →
  ∃ k : Z,
    select_optimal_udim d mode = Ok (Some k)
    ∧ k ∈ keys d
    ∧ ∀ k', k' ∈ keys d → k ≤ k'.
Proof.
  intros Hd Hl Hs. by apply select_optimal_udim_first_is_min_aux.
Qed.

Lemma select_optimal_udim_first_is_min_witness :
  let d := [(1003, tile 64 64); (1001, tile 8 8); (1002, tile 128 128)] in
  d ≠ [] ∧ "largest"%string ≠ "LARGEST"%string
  ∧ "largest"%string ≠ "SMALLEST"%string
  ∧ ∃ k : Z,
      select_optimal_udim d "largest" = Ok (Some k)
      ∧ k ∈ keys d
      ∧ ∀ k', k' ∈ keys d → k ≤ k'.
Proof.
  split; [discriminate|]. split; [discriminate|]. split; [discriminate|].
  apply select_optimal_udim_first_is_min; discriminate.
Defined.

(** X5. On a non-empty dictionary [select_optimal_udim] returns, in every
    mode, a tile number that is a key of the dictionary: it never returns
    [None] and never a tile the caller could not look up. *)
Theorem select_optimal_udim_is_key (d : dict udim_info) (mode : string) :
  d ≠ [] →
  ∃ k : Z, select_optimal_udim d mode = Ok (Some k) ∧ k ∈ keys d.
Proof.
  intros Hd.
  assert (∀ descending, ∃ k,
             head (sort_udims_by_resolution d descending) = Some k
             ∧ k ∈ keys d) as Hsort.
  { intros descending.
    destruct (head_sort_udims_by_resolution d descending Hd)
      as (pre & k & info & post & -> & Hhd & _).
    exists k. split; [done|]. unfold keys. rewrite fmap_app, fmap_cons.
    apply elem_of_app. right. by left. }
  destruct (decide (mode = "LARGEST"%string)) as [->|Hl].
  { rewrite select_optimal_udim_largest by done.
    destruct (Hsort true) as (k & -> & Hk). by exists k. }
  destruct (decide (mode = "SMALLEST"%string)) as [->|Hs].
  { rewrite select_optimal_udim_smallest by done.
    destruct (Hsort false) as (k & -> & Hk). by exists k. }
  destruct (select_optimal_udim_first_is_min_aux d mode Hd Hl Hs)
    as (k & Hk & Hin & _). by exists k.
Qed.

Lemma select_optimal_udim_is_key_witness :
  let d := [(1003, tile 64 64); (1001, tile 8 8)] in
  d ≠ []
  ∧ ∃ k : Z, select_optimal_udim d "SMALLEST" = Ok (Some k) ∧ k ∈ keys d.
Proof.
  split; [discriminate|]. apply select_optimal_udim_is_key. discriminate.
Defined.

(** *** Sorting by resolution *)

Lemma insert_by_filter_key {A : Type} (key : A → Z) reverse (c : Z) a l :
  filter (λ b, key b = c) (insert_by (before key reverse) a l)
  = filter (λ b, key b = c) (a :: l).
Proof.
  induction l as [|b l IH]; [done|]. simpl.
  destruct (before key reverse a b) eqn:Hab; [done|].
  assert (key a ≠ key b) as Hne.
  { intros Heq. unfold before in Hab. rewrite Heq in Hab.
    destruct reverse; lia. }
  rewrite (filter_cons _ b), IH, !(filter_cons _ a), (filter_cons _ b).
  destruct (decide (key a = c)), (decide (key b = c)); congruence.
Qed.

Lemma sort_by_filter_key {A : Type} (key : A → Z) reverse (c : Z) l :
  filter (λ b, key b = c) (sort_by key reverse l)
  = filter (λ b, key b = c) l.
Proof.
  induction l as [|a l IH]; [done|].
  change (sort_by key reverse (a :: l))
    with (insert_by (before key reverse) a (sort_by key reverse l)).
  by rewrite insert_by_filter_key, !(filter_cons _ a), IH.
Qed.

(** X6. [sort_udims_by_resolution] lists the tile numbers of a
    rearrangement of the dictionary's items: no tile is lost or repeated,
    the pixel counts run in the requested direction, and the tiles that
    share a pixel count stay in the dictionary's own order, in both
    directions. *)
Theorem sort_udims_by_resolution_keeps_order
    (d : dict udim_info) (descending : bool) :
  ∃ srt : list (Z * udim_info),
    sort_udims_by_resolution d descending = srt.*1
    ∧ srt ≡ₚ d
    ∧ StronglySorted
        (λ a b, if descending
                then get_pixel_count b.2 ≤ get_pixel_count a.2
                else get_pixel_count a.2 ≤ get_pixel_count b.2) srt
    ∧ ∀ c : Z,
        filter (λ e, get_pixel_count e.2 = c) srt
        = filter (λ e, get_pixel_count e.2 = c) d.
Proof.
  exists (sort_by (get_pixel_count ∘ snd) descending d).
  split; [|split; [|split]].
  - unfold sort_udims_by_resolution, items.
    rewrite (sort_by_fmap _ snd), <-list_fmap_compose.
    rewrite (sort_by_ext _ (get_pixel_count ∘ snd)) by (by intros [??]).
    apply list_fmap_ext. by intros ? [??].
  - apply sort_by_Permutation.
  - eapply StronglySorted_mono;
      [|apply (sort_by_sorted (get_pixel_count ∘ snd) descending)].
    intros a b. unfold before. simpl. destruct descending; lia.
  - intros c. apply (sort_by_filter_key (get_pixel_count ∘ snd)).
Qed.

(** *** Gaps *)

Lemma get_udim_gaps_eq (d : dict udim_info) lo hi :
  d ≠ [] → get_udim_range d = Ok (lo, hi) →
  get_udim_gaps d
  = Ok (sorted (elements ((list_to_set (range2 lo (hi + 1)) : gset Z)
                          ∖ list_to_set (keys d)))).
Proof. intros Hd Hr. unfold get_udim_gaps. rewrite Hr. by destruct d. Qed.

(** X7. For a non-empty dictionary (its tile numbers distinct, as the keys
    of a dictionary are) the gaps and the tiles together fill the range:
    the number of gaps plus the number of tiles is max - min + 1. *)
Theorem get_udim_gaps_count (d : dict udim_info) :
  d ≠ [] → NoDup (keys d) →
  ∃ (lo hi : Z) (gaps : list Z),
    get_udim_range d = Ok (lo, hi)
    ∧ get_udim_gaps d = Ok gaps
    ∧ Z.of_nat (length gaps) + Z.of_nat (length d) = hi - lo + 1.
Proof.
  intros Hd Hnd.
  destruct (get_udim_range_spec d Hd) as (lo & hi & Hr & Hlo & Hhi & Hb).
  exists lo, hi. eexists. split; [done|].
  split; [by apply get_udim_gaps_eq|].
  rewrite (Permutation_length (sorted_Permutation _)).
  change (length (elements ?X)) with (size X).
  assert ((list_to_set (keys d) : gset Z)
          ⊆ list_to_set (range2 lo (hi + 1))) as Hsub.
  { intros k. rewrite !elem_of_list_to_set. unfold range2.
    rewrite elem_of_seqZ. intros Hk. specialize (Hb k Hk). lia. }
  pose proof (subseteq_size _ _ Hsub) as Hle.
  rewrite size_difference by done.
  rewrite !size_list_to_set in * by (done || apply NoDup_seqZ).
  unfold range2, keys in *. rewrite length_seqZ, length_fmap in *.
  pose proof (Hb lo Hlo). lia.
Qed.

Lemma get_udim_gaps_count_witness :
  let d := [(1010, tile 8 8); (1001, tile 8 8); (1005, tile 8 8)] in
  d ≠ [] ∧ NoDup (keys d)
  ∧ ∃ (lo hi : Z) (gaps : list Z),
      get_udim_range d = Ok (lo, hi)
      ∧ get_udim_gaps d = Ok gaps
      ∧ Z.of_nat (length gaps) + Z.of_nat (length d) = hi - lo + 1.
Proof.
  assert (NoDup (keys [(1010, tile 8 8); (1001, tile 8 8); (1005, tile 8 8)]))
    as Hnd by (apply (bool_decide_unpack _); by vm_compute).
  split; [discriminate|]. split; [exact Hnd|].
  apply get_udim_gaps_count; [discriminate | exact Hnd].
Defined.

(** X8. A dictionary that holds exactly the tiles of a generated sequence
    (in any insertion order) has no gaps. *)
Theorem get_udim_gaps_of_sequence
    (d : dict udim_info) (start n : Z) (udims : list Z) :
  generate_udim_sequence start n = Ok udims →
  0 < n →
  keys d ≡ₚ udims →
  get_udim_gaps d = Ok [].
Proof.
  intros Hgen Hn Hkeys.
  assert (1001 ≤ start) as Hs.
  { destruct (Z.lt_ge_cases start 1001) as [Hlt|]; [|done].
    unfold generate_udim_sequence in Hgen.
    by rewrite parse_udim_number_raises in Hgen. }
  rewrite generate_udim_sequence_ok in Hgen by done.
  injection Hgen as <-.
  assert (d ≠ []) as Hd.
  { intros ->. apply Permutation_length in Hkeys.
    rewrite length_seqZ in Hkeys. simpl in Hkeys. lia. }
  destruct (get_udim_range_spec d Hd) as (lo & hi & Hr & Hlo & Hhi & Hb).
  rewrite (get_udim_gaps_eq d lo hi) by done. f_equal.
  apply elem_of_nil_inv. intros k.
  rewrite sorted_Permutation, elem_of_elements, elem_of_difference.
  rewrite !elem_of_list_to_set. unfold range2.
  rewrite Hkeys, !elem_of_seqZ in *. lia.
Qed.

Lemma get_udim_gaps_of_sequence_witness :
  let d := [(1003, tile 8 8); (1002, tile 8 8); (1004, tile 8 8)] in
  generate_udim_sequence 1002 3 = Ok [1002; 1003; 1004]
  ∧ 0 < 3
  ∧ keys d ≡ₚ [1002; 1003; 1004]
  ∧ get_udim_gaps d = Ok [].
Proof.
  assert ([1003; 1002; 1004] ≡ₚ [1002; 1003; 1004]) as Hp
    by apply Permutation_swap.
  split; [reflexivity|]. split; [lia|]. split; [exact Hp|].
  apply (get_udim_gaps_of_sequence _ 1002 3 [1002; 1003; 1004]);
    [reflexivity | lia | exact Hp].
Defined.

(** *** Index into the sorted tile list *)

Lemma length_sorted_keys (d : dict udim_info) :
  length (sorted (keys d)) = length d.
Proof.
  rewrite (Permutation_length (sorted_Permutation _)).
  unfold keys. apply length_fmap.
Qed.

Lemma get_udim_from_index_Some (d : dict udim_info) (i k : Z) :
  get_udim_from_index d i = Some k
  ↔ 0 ≤ i ∧ sorted (keys d) !! Z.to_nat i = Some k.
Proof.
  unfold get_udim_from_index. destruct d as [|e d]; [by split; [|intros [_ ?]]|].
  simpl is_empty. cbv iota.
  destruct (Z.leb_spec 0 i) as [Hi|Hi]; cbn [andb];
    [|split; [done|lia]].
  destruct (Z.ltb_spec i (Z.of_nat (length (sorted (keys (e :: d))))))
    as [Hlt|Hge].
  - split; [done|by intros [_ ?]].
  - split; [done|]. intros [_ Hl]. apply lookup_lt_Some in Hl. lia.
Qed.

Lemma StronglySorted_lookup_lt (l : list Z) (i j : nat) (a b : Z) :
  StronglySorted Z.lt l → l !! i = Some a → l !! j = Some b →
  (i < j)%nat → a < b.
Proof.
  intros Hs Hi Hj Hij.
  rewrite <-(take_drop_middle l i a Hi) in Hs.
  apply StronglySorted_app_1_r, StronglySorted_cons in Hs as [Hall _].
  rewrite Forall_forall in Hall. apply Hall.
  apply list_elem_of_lookup. exists (j - S i)%nat.
  rewrite lookup_drop. by replace (S i + (j - S i))%nat with j by lia.
Qed.

(** X9. For a dictionary with distinct tile numbers: [get_udim_from_index]
    returns a tile exactly for the indices 0 <= index < number of tiles
    ([None] for a negative index: no counting from the end); every value
    returned is a tile of the dictionary, every tile is returned at some
    index, and a larger index returns a larger tile number. *)
Theorem get_udim_from_index_enumerates (d : dict udim_info) :
  NoDup (keys d) →
  (∀ i : Z,
      is_Some (get_udim_from_index d i) ↔ 0 ≤ i < Z.of_nat (length d))
  ∧ (∀ (i k : Z), get_udim_from_index d i = Some k → k ∈ keys d)
  ∧ (∀ k : Z, k ∈ keys d → ∃ i : Z, get_udim_from_index d i = Some k)
  ∧ (∀ i j a b : Z,
        get_udim_from_index d i = Some a →
        get_udim_from_index d j = Some b →
        i < j → a < b).
Proof.
  intros Hnd. split; [|split; [|split]].
  - intros i. split.
    + intros [k [Hi Hk]%get_udim_from_index_Some].
      apply lookup_lt_Some in Hk. rewrite length_sorted_keys in Hk. lia.
    + intros [Hi Hlt].
      destruct (lookup_lt_is_Some_2 (sorted (keys d)) (Z.to_nat i)) as [k Hk].
      { rewrite length_sorted_keys. lia. }
      exists k. by apply get_udim_from_index_Some.
  - intros i k [_ Hk]%get_udim_from_index_Some.
    rewrite <-(sorted_Permutation (keys d)).
    apply list_elem_of_lookup. by exists (Z.to_nat i).
  - intros k Hk. rewrite <-(sorted_Permutation (keys d)) in Hk.
    apply list_elem_of_lookup in Hk as [i Hi].
    exists (Z.of_nat i). apply get_udim_from_index_Some.
    split; [lia|]. by rewrite Nat2Z.id.
  - intros i j a b [Hi Ha]%get_udim_from_index_Some
      [Hj Hb]%get_udim_from_index_Some Hij.
    eapply (StronglySorted_lookup_lt (sorted (keys d))); [|done|done|lia].
    apply StronglySorted_le_lt; [|apply sorted_le].
    by rewrite sorted_Permutation.
Qed.

Lemma get_udim_from_index_enumerates_witness :
  let d := [(1010, tile 8 8); (1001, tile 8 8); (1005, tile 8 8)] in
  NoDup (keys d)
  ∧ (∀ i : Z,
        is_Some (get_udim_from_index d i) ↔ 0 ≤ i < Z.of_nat (length d))
  ∧ (∀ (i k : Z), get_udim_from_index d i = Some k → k ∈ keys d)
  ∧ (∀ k : Z, k ∈ keys d → ∃ i : Z, get_udim_from_index d i = Some k)
  ∧ (∀ i j a b : Z,
        get_udim_from_index d i = Some a →
        get_udim_from_index d j = Some b →
        i < j → a < b).
Proof.
  assert (NoDup (keys [(1010, tile 8 8); (1001, tile 8 8); (1005, tile 8 8)]))
    as Hnd by (apply (bool_decide_unpack _); by vm_compute).
  split; [exact Hnd|]. apply get_udim_from_index_enumerates. exact Hnd.
Defined.

Lemma StronglySorted_le_head (l : list Z) (a : Z) :
  StronglySorted Z.le l → l !! 0%nat = Some a → ∀ k, k ∈ l → a ≤ k.
Proof.
  destruct l as [|a' l]; [done|]. intros [Hall _]%StronglySorted_cons [= ->].
  intros k [->|Hk]%elem_of_cons; [lia|].
  rewrite Forall_forall in Hall. by apply Hall.
Qed.

Lemma StronglySorted_le_last (l : list Z) (b : Z) :
  StronglySorted Z.le l → l !! (length l - 1)%nat = Some b →
  ∀ k, k ∈ l → k ≤ b.
Proof.
  intros Hs Hb k [i Hi]%list_elem_of_lookup.
  pose proof (lookup_lt_Some _ _ _ Hi) as Hlen.
  destruct (decide (i = length l - 1)%nat) as [->|Hne].
  { rewrite Hb in Hi. injection Hi as ->. lia. }
  rewrite <-(take_drop_middle l i k Hi) in Hs.
  apply StronglySorted_app_1_r, StronglySorted_cons in Hs as [Hall _].
  rewrite Forall_forall in Hall. apply Hall.
  apply list_elem_of_lookup. exists (length l - 1 - S i)%nat.
  rewrite lookup_drop.
  by replace (S i + (length l - 1 - S i))%nat with (length l - 1)%nat by lia.
Qed.

(** X10. The ends of the index agree with the other functions: on a
    non-empty dictionary index 0 returns the minimum of [get_udim_range],
    which is also what mode FIRST selects, and the last index returns the
    maximum. *)
Theorem get_udim_from_index_ends (d : dict udim_info) :
  d ≠ [] →
  ∃ lo hi : Z,
    get_udim_range d = Ok (lo, hi)
    ∧ get_udim_from_index d 0 = Some lo
    ∧ get_udim_from_index d (Z.of_nat (length d) - 1) = Some hi
    ∧ select_optimal_udim d "FIRST" = Ok (Some lo).
Proof.
  intros Hd.
  destruct (get_udim_range_spec d Hd) as (lo & hi & Hr & Hlo & Hhi & Hb).
  exists lo, hi. split; [done|].
  assert (0 < length d)%nat as Hlen by (destruct d; [done|simpl; lia]).
  pose proof (sorted_le (keys d)) as Hs.
  pose proof (length_sorted_keys d) as Hl.
  split; [|split].
  - destruct (lookup_lt_is_Some_2 (sorted (keys d)) 0) as [a Ha]; [lia|].
    apply get_udim_from_index_Some. split; [lia|].
    change (Z.to_nat 0) with 0%nat. rewrite Ha. f_equal.
    assert (a ∈ keys d) as Hin.
    { rewrite <-(sorted_Permutation (keys d)).
      apply list_elem_of_lookup. by exists 0%nat. }
    assert (a ≤ lo).
    { apply (StronglySorted_le_head _ _ Hs Ha).
      by rewrite sorted_Permutation. }
    specialize (Hb a Hin). lia.
  - destruct (lookup_lt_is_Some_2 (sorted (keys d)) (length d - 1))
      as [b Hbb]; [lia|].
    apply get_udim_from_index_Some. split; [lia|].
    replace (Z.to_nat (Z.of_nat (length d) - 1)) with (length d - 1)%nat
      by lia.
    rewrite Hbb. f_equal.
    assert (b ∈ keys d) as Hin.
    { rewrite <-(sorted_Permutation (keys d)).
      apply list_elem_of_lookup. by exists (length d - 1)%nat. }
    assert (hi ≤ b).
    { rewrite <-Hl in Hbb. apply (StronglySorted_le_last _ _ Hs Hbb).
      by rewrite sorted_Permutation. }
    specialize (Hb b Hin). lia.
  - destruct d as [|[k0 i0] d]; [done|].
    unfold get_udim_range in Hr. simpl in Hr. injection Hr as <- _.
    reflexivity.
Qed.

Lemma get_udim_from_index_ends_witness :
  let d := [(1010, tile 8 8); (1001, tile 8 8); (1005, tile 8 8)] in
  d ≠ []
  ∧ ∃ lo hi : Z,
      get_udim_range d = Ok (lo, hi)
      ∧ get_udim_from_index d 0 = Some lo
      ∧ get_udim_from_index d (Z.of_nat (length d) - 1) = Some hi
      ∧ select_optimal_udim d "FIRST" = Ok (Some lo).
Proof.
  split; [discriminate|]. apply get_udim_from_index_ends. discriminate.
Defined.

(** *** Validation of a tile sequence *)

Lemma get_udim_gaps_total (d : dict udim_info) :
  ∃ gaps, get_udim_gaps d = Ok gaps.
Proof.
  destruct (decide (d = [])) as [->|Hd]; [by eexists|].
  destruct (get_udim_range_spec d Hd) as (lo & hi & Hr & _).
  eexists. by apply get_udim_gaps_eq.
Qed.

Lemma check_large_keeps (d : dict udim_info) (r : sequence_validation) :
  valid (check_large d r) = valid r ∧ errors (check_large d r) = errors r.
Proof.
  unfold check_large, items. revert r.
  induction d as [|[n info] d IH]; intros r; [done|]. simpl.
  destruct (_ || _); [|apply IH].
  destruct (IH (warn_suggest
                  ("UDIM " +:+ str_int n +:+ " has very high resolution: "
                   +:+ str_int (default 0 (width info)) +:+ "x"
                   +:+ str_int (default 0 (height info)))
                  "Consider using lower resolution for better performance" r))
    as [-> ->].
  done.
Qed.

Lemma check_large_warnings (d : dict udim_info) (r : sequence_validation) w :
  w ∈ warnings (check_large d r) →
  w ∈ warnings r ∨ ∃ rest : string, w = ("UDIM " +:+ rest)%string.
Proof.
  unfold check_large, items. revert r.
  induction d as [|[n info] d IH]; intros r; [by left|]. simpl.
  destruct (_ || _); [|apply IH].
  intros [Hw|Hw]%IH; [|by right]. simpl in Hw.
  apply elem_of_app in Hw as [?| ->%list_elem_of_singleton]; [by left|].
  right. by eexists.
Qed.

Lemma check_large_warnings_mono (d : dict udim_info) r w :
  w ∈ warnings r → w ∈ warnings (check_large d r).
Proof.
  unfold check_large, items. revert r.
  induction d as [|[n info] d IH]; intros r Hw; [done|]. simpl.
  destruct (_ || _); apply IH; [|done].
  simpl. apply elem_of_app. by left.
Qed.

Lemma foldl_missing (d : list (Z * udim_info)) (acc : list Z) :
  foldl (λ missing_files '(udim_num, udim_info),
           if negb (exists_ udim_info)
           then missing_files ++ [udim_num]
           else missing_files) acc d
  = acc ++ (filter (λ e, exists_ e.2 = false) d).*1.
Proof.
  revert acc. induction d as [|[n info] d IH]; intros acc.
  - simpl. by rewrite app_nil_r.
  - cbn [foldl]. rewrite IH, filter_cons. cbn [snd].
    destruct (exists_ info); simpl; [done|].
    by rewrite <-app_assoc.
Qed.

Lemma collect_missing_eq (d : dict udim_info) :
  collect_missing d = (filter (λ e, exists_ e.2 = false) d).*1.
Proof. unfold collect_missing, items. by rewrite foldl_missing. Qed.

Lemma filter_missing_nil (d : list (Z * udim_info)) :
  (filter (λ e, exists_ e.2 = false) d).*1 = []
  ↔ Forall (λ e, exists_ e.2 = true) d.
Proof.
  induction d as [|[n info] d IH]; [by split|].
  rewrite filter_cons, Forall_cons. cbn [snd].
  destruct (exists_ info); simpl.
  - rewrite IH. split; [by intros ?; split|by intros [_ ?]].
  - split; [done|]. by intros [? _].
Qed.

Lemma collect_missing_nil (d : dict udim_info) :
  collect_missing d = [] ↔ Forall (λ e, exists_ e.2 = true) d.
Proof. rewrite collect_missing_eq. apply filter_missing_nil. Qed.

(** The part of the result that decides validity, and where the warnings
    come from. *)
Lemma validate_udim_sequence_nonempty (d : dict udim_info) :
  d ≠ [] →
  ∃ (r : sequence_validation) (gaps : list Z),
    validate_udim_sequence d = Ok r
    ∧ get_udim_gaps d = Ok gaps
    ∧ valid r = bool_decide (collect_missing d = [])
    ∧ errors r
      = match collect_missing d with
        | [] => []
        | _ :: _ =>
            [("UDIM files missing on disk: "
              +:+ str_list (collect_missing d))%string]
        end
    ∧ warnings r
      = warnings
          (check_large d
             (let r1 :=
                match gaps with
                | [] => mkSequenceValidation true [] [] []
                | _ :: _ =>
                    warn_suggest ("Missing UDIM tiles: " +:+ str_list gaps)
                      "Consider filling gaps or using non-sequential UDIMs"
                      (mkSequenceValidation true [] [] [])
                end in
              if (1 <? size (collect_resolutions d))%nat
              then warn_suggest "Inconsistent resolutions across UDIM tiles"
                     "Consider standardizing all tiles to same resolution" r1
              else r1)).
Proof.
  intros Hd. destruct (get_udim_gaps_total d) as [gaps Hg].
  unfold validate_udim_sequence. rewrite Hg.
  destruct d as [|e d]; [done|]. simpl is_empty. cbv iota.
  change (mbind ?f (Ok gaps)) with (f gaps). cbv beta zeta.
  set (r2 := if (1 <? size (collect_resolutions (e :: d)))%nat
             then _ else _).
  assert (valid r2 = true ∧ errors r2 = []) as [Hv2 He2].
  { subst r2. by destruct gaps, (1 <? _)%nat. }
  destruct (check_large_keeps (e :: d) r2) as [Hv3 He3].
  rewrite Hv2 in Hv3. rewrite He2 in He3.
  set (r3 := check_large (e :: d) r2) in *.
  eexists _, gaps. split; [reflexivity|]. split; [done|].
  destruct (collect_missing (e :: d)) as [|m ms] eqn:Hm.
  - by destruct (20 <? _)%nat, (sort_udims_by_resolution _ _) as [|? [|??]].
  - destruct (20 <? _)%nat, (sort_udims_by_resolution _ _) as [|? [|??]];
      simpl; by rewrite ?He3.
Qed.

(** X11. [validate_udim_sequence] never raises. Its result is valid exactly
    when the dictionary is non-empty and no tile is marked as missing on
    disk, and valid exactly when it carries no error: an empty dictionary
    gives the error "No UDIM files found", missing tiles give one error
    that lists their numbers in dictionary order, and gaps, mixed
    resolutions and large textures never make a sequence invalid. *)
Theorem validate_udim_sequence_valid (d : dict udim_info) :
  ∃ r : sequence_validation,
    validate_udim_sequence d = Ok r
    ∧ (valid r = true ↔ d ≠ [] ∧ Forall (λ e, exists_ e.2 = true) d)
    ∧ (valid r = true ↔ errors r = [])
    ∧ (d = [] → errors r = ["No UDIM files found"%string])
    ∧ (∀ missing,
          d ≠ [] →
          missing = (filter (λ e, exists_ e.2 = false) d).*1 →
          missing ≠ [] →
          errors r
          = [("UDIM files missing on disk: " +:+ str_list missing)%string]).
Proof.
  destruct (decide (d = [])) as [->|Hd].
  { eexists. split; [reflexivity|]. simpl.
    split; [split; [done|by intros [? _]]|]. by repeat split. }
  destruct (validate_udim_sequence_nonempty d Hd)
    as (r & gaps & Hr & _ & Hv & He & _).
  exists r. split; [done|]. rewrite Hv, He.
  pose proof (collect_missing_nil d) as Hnil.
  pose proof (collect_missing_eq d) as Heq.
  destruct (collect_missing d) as [|m ms].
  - rewrite bool_decide_eq_true.
    split; [split; [intros _; split; [done|by apply Hnil]|done]|].
    split; [done|]. split; [done|].
    intros missing _ -> Hne. by rewrite <-Heq in Hne.
  - rewrite bool_decide_eq_true.
    split; [split; [done|intros [_ HF]; by apply Hnil in HF]|].
    split; [done|]. split; [done|].
    by intros missing _ -> _; rewrite <-Heq.
Qed.

Lemma foldl_resolutions (vs : list udim_info) (acc : gset (Z * Z)) p :
  p ∈ foldl (λ (resolutions : gset (Z * Z)) udim_info,
               let width := default 0 (width udim_info) in
               let height := default 0 (height udim_info) in
               if (0 <? width) && (0 <? height)
               then resolutions ∪ {[ (width, height) ]}
               else resolutions) acc vs
  ↔ p ∈ acc ∨ ∃ info, info ∈ vs ∧ sized info ∧ p = resolution info.
Proof.
  revert acc. induction vs as [|info vs IH]; intros acc.
  - simpl. split; [by left|]. intros [?|(? & []%elem_of_nil & _)]. done.
  - cbn [foldl]. rewrite IH. cbv zeta.
    destruct (Z.ltb_spec 0 (default 0 (width info))) as [Hw|Hw];
      destruct (Z.ltb_spec 0 (default 0 (height info))) as [Hh|Hh];
      cbn [andb].
    1: rewrite elem_of_union, elem_of_singleton.
    all: split.
    all: try (intros [[?| ->]|(i & Hi & Hs & ->)];
              [by left
              |right; exists info; split; [by left|by split]
              |right; exists i; split; [by right|by split]]).
    all: try (intros [?|(i & Hi & Hs & ->)];
              [by left|right; exists i; split; [by right|by split]]).
    + intros [?|(i & [->|Hi]%elem_of_cons & Hs & ->)];
        [by left; left|by left; right|].
      right. by exists i.
    + intros [?|(i & [->|Hi]%elem_of_cons & [??] & ->)];
        [by left|lia|]. right. by exists i.
    + intros [?|(i & [->|Hi]%elem_of_cons & [??] & ->)];
        [by left|lia|]. right. by exists i.
    + intros [?|(i & [->|Hi]%elem_of_cons & [??] & ->)];
        [by left|lia|]. right. by exists i.
Qed.

Lemma elem_of_collect_resolutions (d : dict udim_info) p :
  p ∈ collect_resolutions d
  ↔ ∃ info, info ∈ values d ∧ sized info ∧ p = resolution info.
Proof.
  unfold collect_resolutions. rewrite foldl_resolutions.
  split; [intros [[]%elem_of_empty|?]; done|by right].
Qed.

Lemma size_gt_1 (X : gset (Z * Z)) :
  (1 < size X)%nat ↔ ∃ p q, p ∈ X ∧ q ∈ X ∧ p ≠ q.
Proof.
  split.
  - intros Hsz.
    destruct (size_pos_elem_of X) as [p Hp]; [lia|].
    destruct (size_pos_elem_of (X ∖ {[p]})) as [q Hq].
    { rewrite size_difference by (by apply singleton_subseteq_l).
      rewrite size_singleton. lia. }
    apply elem_of_difference in Hq as [Hq Hne].
    exists p, q. split; [done|]. split; [done|].
    intros ->. apply Hne. by apply elem_of_singleton.
  - intros (p & q & Hp & Hq & Hne).
    assert (({[p]} ∪ {[q]} : gset (Z * Z)) ⊆ X) as Hsub.
    { apply union_subseteq. by split; apply singleton_subseteq_l. }
    apply subseteq_size in Hsub.
    rewrite size_union, !size_singleton in Hsub; [lia|].
    by apply disjoint_singleton_l, not_elem_of_singleton.
Qed.

(** X12. [validate_udim_sequence] warns "Inconsistent resolutions across
    UDIM tiles" exactly when two tiles with positive width and height differ
    in (width, height); tiles with a zero or missing dimension (images whose
    size could not be read) are left out of the comparison. *)
Theorem validate_udim_sequence_inconsistent (d : dict udim_info) :
  ∃ r : sequence_validation,
    validate_udim_sequence d = Ok r
    ∧ ("Inconsistent resolutions across UDIM tiles"%string ∈ warnings r
       ↔ ∃ i1 i2 : udim_info,
           i1 ∈ values d ∧ i2 ∈ values d
           ∧ (0 < default 0 (width i1) ∧ 0 < default 0 (height i1))
           ∧ (0 < default 0 (width i2) ∧ 0 < default 0 (height i2))
           ∧ (default 0 (width i1), default 0 (height i1))
             ≠ (default 0 (width i2), default 0 (height i2))).
Proof.
  assert ((1 < size (collect_resolutions d))%nat
          ↔ ∃ i1 i2 : udim_info,
              i1 ∈ values d ∧ i2 ∈ values d ∧ sized i1 ∧ sized i2
              ∧ resolution i1 ≠ resolution i2) as Hsize.
  { rewrite size_gt_1. split.
    - intros (p & q & (i1 & ? & ? & ->)%elem_of_collect_resolutions
                & (i2 & ? & ? & ->)%elem_of_collect_resolutions & ?).
      by exists i1, i2.
    - intros (i1 & i2 & ? & ? & ? & ? & ?).
      exists (resolution i1), (resolution i2).
      split; [apply elem_of_collect_resolutions; by exists i1|].
      split; [apply elem_of_collect_resolutions; by exists i2|done]. }
  destruct (decide (d = [])) as [->|Hd].
  { eexists. split; [reflexivity|]. simpl. split.
    - by intros []%elem_of_nil.
    - by intros (i1 & _ & []%elem_of_nil & _). }
  destruct (validate_udim_sequence_nonempty d Hd)
    as (r & gaps & Hr & _ & _ & _ & Hw).
  exists r. split; [done|]. rewrite Hw, <-Hsize. clear Hw Hsize.
  destruct (Nat.ltb_spec 1 (size (collect_resolutions d))) as [Hlt|Hge].
  - split; [done|]. intros _. apply check_large_warnings_mono.
    cbv zeta. simpl. apply elem_of_app. right. by left.
  - split; [|lia]. intros [Hin|[rest Hrest]]%check_large_warnings;
      [|discriminate].
    cbv zeta in Hin. destruct gaps; simpl in Hin.
    + by apply elem_of_nil in Hin.
    + apply list_elem_of_singleton in Hin. discriminate.
Qed.

(** *** Statistics *)

Lemma foldl_add (a : Z) (l : list Z) : foldl Z.add a l = a + sum_ l.
Proof.
  unfold sum_. revert a. induction l as [|b l IH]; intros a; simpl; [lia|].
  rewrite (IH (a + b)), (IH (0 + b)). lia.
Qed.

Lemma sum_cons (a : Z) (l : list Z) : sum_ (a :: l) = a + sum_ l.
Proof. unfold sum_ at 1. simpl. by rewrite foldl_add. Qed.

Section statistics.
Context (path_exists : string → bool) (getsize : string → option Z).

(** The first two components of the collection loop. *)
Lemma collect_statistics_loop (vs : list udim_info) rs tp fs :
  ∃ fs',
    foldl (collect_step path_exists getsize) (rs, tp, fs) vs
    = (rs ++ (resolution <$> vs), tp + sum_ (get_pixel_count <$> vs), fs').
Proof.
  revert rs tp fs. induction vs as [|info vs IH]; intros rs tp fs.
  - exists fs. simpl. rewrite app_nil_r. unfold sum_. simpl.
    by rewrite Z.add_0_r.
  - cbn [foldl]. unfold collect_step at 2. cbv zeta.
    edestruct IH as [fs' ->]. exists fs'.
    rewrite <-app_assoc, !fmap_cons, sum_cons. simpl.
    unfold get_pixel_count at 2. do 2 f_equal. lia.
Qed.

Lemma collect_statistics_eq (d : dict udim_info) :
  ∃ fs,
    collect_statistics path_exists getsize d
    = (resolution <$> values d, sum_ (get_pixel_count <$> values d), fs).
Proof.
  unfold collect_statistics.
  destruct (collect_statistics_loop (values d) [] 0 []) as [fs ->].
  by exists fs.
Qed.

Lemma get_udim_statistics_nonempty (d : dict udim_info) :
  d ≠ [] →
  ∃ (st : statistics) (r : Z * Z) (rs : list (Z * Z)),
    get_udim_statistics path_exists getsize d = Ok st
    ∧ resolution <$> values d = r :: rs
    ∧ count st = Z.of_nat (length d)
    ∧ total_pixels st = sum_ (get_pixel_count <$> values d)
    ∧ avg_resolution st
      = (sum_ (fst <$> r :: rs) `div` Z.of_nat (length (fst <$> r :: rs)),
         sum_ (snd <$> r :: rs) `div` Z.of_nat (length (snd <$> r :: rs)))
    ∧ min_resolution st = min_pair r rs
    ∧ max_resolution st = max_pair r rs
    ∧ file_sizes st = None
    ∧ is_Some (total_file_size st) ∧ is_Some (avg_file_size st).
Proof.
  intros Hd. unfold get_udim_statistics.
  destruct (collect_statistics_eq d) as [fs ->].
  destruct (get_udim_range_spec d Hd) as (lo & hi & Hr & _).
  rewrite (get_udim_gaps_eq d lo hi Hd Hr), Hr.
  destruct d as [|[k info] d]; [done|]. simpl is_empty. cbv iota.
  change (values ((k, info) :: d)) with (info :: values d).
  rewrite fmap_cons.
  eexists _, (resolution info), (resolution <$> values d).
  split; [reflexivity|]. simpl. by repeat split.
Qed.

End statistics.

(** X13. For every dictionary and every state of the file system
    [get_udim_statistics] returns a result. On a non-empty dictionary the
    count is the number of tiles, the total is the sum of the tiles' pixel
    counts, and the average width and height are the floors of the means
    (count * avg <= sum < count * (avg + 1)). The two cases return
    different keys: [file_sizes] only for the empty dictionary,
    [total_file_size] and [avg_file_size] only for a non-empty one. *)
Theorem get_udim_statistics_totals
    (path_exists : string → bool) (getsize : string → option Z)
    (d : dict udim_info) :
  ∃ st : statistics,
    get_udim_statistics path_exists getsize d = Ok st
    ∧ count st = Z.of_nat (length d)
    ∧ total_pixels st = sum_ (get_pixel_count <$> values d)
    ∧ (is_Some (file_sizes st) ↔ d = [])
    ∧ (is_Some (total_file_size st) ↔ d ≠ [])
    ∧ (is_Some (avg_file_size st) ↔ d ≠ [])
    ∧ (d ≠ [] →
       let n := Z.of_nat (length d) in
       let widths := (fst ∘ resolution) <$> values d in
       let heights := (snd ∘ resolution) <$> values d in
       n * (avg_resolution st).1 ≤ sum_ widths < n * ((avg_resolution st).1 + 1)
       ∧ n * (avg_resolution st).2 ≤ sum_ heights
                                   < n * ((avg_resolution st).2 + 1)).
Proof.
  destruct (decide (d = [])) as [->|Hd].
  { eexists. split; [reflexivity|]. simpl.
    split; [done|]. split; [done|].
    split; [by split|]. split; [split; [by intros [??]|done]|].
    split; [split; [by intros [??]|done]|done]. }
  destruct (get_udim_statistics_nonempty path_exists getsize d Hd)
    as (st & r & rs & Hst & Hres & Hc & Ht & Ha & _ & _ & Hfs & Htf & Haf).
  exists st. split; [done|]. split; [done|]. split; [done|].
  rewrite Hfs. split; [split; [by intros [??]|done]|].
  split; [done|]. split; [done|]. intros _ n widths heights.
  assert (length (r :: rs) = length d) as Hlen.
  { rewrite <-Hres. unfold values. by rewrite !length_fmap. }
  assert (0 < n) as Hn by (subst n; destruct d; [done|simpl; lia]).
  subst widths heights. rewrite !list_fmap_compose, Hres, Ha.
  rewrite !length_fmap, Hlen. fold n. cbn [fst snd].
  split.
  - pose proof (Z.mul_div_le (sum_ (fst <$> r :: rs)) n Hn).
    pose proof (Z.mul_succ_div_gt (sum_ (fst <$> r :: rs)) n Hn). lia.
  - pose proof (Z.mul_div_le (sum_ (snd <$> r :: rs)) n Hn).
    pose proof (Z.mul_succ_div_gt (sum_ (snd <$> r :: rs)) n Hn). lia.
Qed.

Lemma lex_le_refl a : lex_le a a.
Proof. unfold lex_le. lia. Qed.

Lemma lex_le_trans a b c : lex_le a b → lex_le b c → lex_le a c.
Proof. unfold lex_le. lia. Qed.

Lemma pair_ltb_lex a b : pair_ltb a b = true → lex_le a b.
Proof. unfold pair_ltb, lex_le. lia. Qed.

Lemma pair_ltb_false_lex a b : pair_ltb a b = false → lex_le b a.
Proof. unfold pair_ltb, lex_le. lia. Qed.

Lemma min_pair_spec (r : Z * Z) (rs : list (Z * Z)) :
  min_pair r rs ∈ r :: rs ∧ ∀ q, q ∈ r :: rs → lex_le (min_pair r rs) q.
Proof.
  unfold min_pair. revert r. induction rs as [|b rs IH]; intros r.
  - simpl. split; [by left|].
    intros q ->%list_elem_of_singleton. apply lex_le_refl.
  - cbn [foldl]. destruct (pair_ltb b r) eqn:Hlt.
    + destruct (IH b) as [Hin Hle]. split; [by right|].
      intros q [->|Hq]%elem_of_cons; [|by apply Hle].
      eapply lex_le_trans; [apply Hle; by left|by apply pair_ltb_lex].
    + destruct (IH r) as [Hin Hle]. split.
      * apply elem_of_cons in Hin as [->|Hin]; [by left|by do 2 right].
      * intros q [->|[->|Hq]%elem_of_cons]%elem_of_cons.
        -- apply Hle. by left.
        -- eapply lex_le_trans; [apply Hle; by left|].
           by apply pair_ltb_false_lex.
        -- apply Hle. by right.
Qed.

Lemma max_pair_spec (r : Z * Z) (rs : list (Z * Z)) :
  max_pair r rs ∈ r :: rs ∧ ∀ q, q ∈ r :: rs → lex_le q (max_pair r rs).
Proof.
  unfold max_pair. revert r. induction rs as [|b rs IH]; intros r.
  - simpl. split; [by left|].
    intros q ->%list_elem_of_singleton. apply lex_le_refl.
  - cbn [foldl]. destruct (pair_ltb r b) eqn:Hlt.
    + destruct (IH b) as [Hin Hle]. split; [by right|].
      intros q [->|Hq]%elem_of_cons; [|by apply Hle].
      eapply lex_le_trans; [by apply pair_ltb_lex|apply Hle; by left].
    + destruct (IH r) as [Hin Hle]. split.
      * apply elem_of_cons in Hin as [->|Hin]; [by left|by do 2 right].
      * intros q [->|[->|Hq]%elem_of_cons]%elem_of_cons.
        -- apply Hle. by left.
        -- eapply lex_le_trans; [by apply pair_ltb_false_lex|].
           apply Hle. by left.
        -- apply Hle. by right.
Qed.

(** X14. On a non-empty dictionary the [min_resolution] and
    [max_resolution] of [get_udim_statistics] are the resolutions of actual
    tiles, the least and the greatest in lexicographic order: by width
    first, by height only among tiles of equal width. So [min_resolution]
    has the smallest width of all tiles but need not have the smallest
    height or pixel count. *)
Theorem get_udim_statistics_extremes
    (path_exists : string → bool) (getsize : string → option Z)
    (d : dict udim_info) :
  d ≠ [] →
  ∃ (st : statistics) (imin imax : udim_info),
    get_udim_statistics path_exists getsize d = Ok st
    ∧ imin ∈ values d ∧ min_resolution st = resolution imin
    ∧ imax ∈ values d ∧ max_resolution st = resolution imax
    ∧ ∀ info, info ∈ values d →
        lex_le (min_resolution st) (resolution info)
        ∧ lex_le (resolution info) (max_resolution st).
Proof.
  intros Hd.
  destruct (get_udim_statistics_nonempty path_exists getsize d Hd)
    as (st & r & rs & Hst & Hres & _ & _ & _ & Hmin & Hmax & _).
  destruct (min_pair_spec r rs) as [Hmin_in Hmin_le].
  destruct (max_pair_spec r rs) as [Hmax_in Hmax_le].
  rewrite <-Hres in Hmin_in, Hmax_in, Hmin_le, Hmax_le.
  apply list_elem_of_fmap in Hmin_in as (imin & Himin & ?).
  apply list_elem_of_fmap in Hmax_in as (imax & Himax & ?).
  exists st, imin, imax. rewrite Hmin, Hmax.
  split; [done|]. split; [done|]. split; [done|]. split; [done|].
  split; [done|]. intros info Hinfo.
  assert (resolution info ∈ resolution <$> values d) as Hin
      by (apply list_elem_of_fmap; by exists info).
  split; [by apply Hmin_le|by apply Hmax_le].
Qed.

Lemma get_udim_statistics_extremes_witness :
  let d := [(1003, tile 100 5000); (1001, tile 200 10); (1002, tile 100 6)] in
  d ≠ []
  ∧ ∃ (st : statistics) (imin imax : udim_info),
      get_udim_statistics (λ _, true) (λ _, Some 7) d = Ok st
      ∧ imin ∈ values d ∧ min_resolution st = resolution imin
      ∧ imax ∈ values d ∧ max_resolution st = resolution imax
      ∧ ∀ info, info ∈ values d →
          lex_le (min_resolution st) (resolution info)
          ∧ lex_le (resolution info) (max_resolution st).
Proof.
  split; [discriminate|]. apply get_udim_statistics_extremes. discriminate.
Defined.

End UdimMore.

(** * Further properties of [utils/scaling_utils.py] *)

Module ScalingMore.
Import ScalingUtils ScalingFacts.

(** *** Errors of the conversions *)

Lemma float_of_int_cases (n : Z) :
  (∃ f, float_of_int n = Ok f) ∨ float_of_int n = Raise OverflowError.
Proof.
  unfold float_of_int.
  destruct (binary_normalize prec emax n 0 false); eauto.
Qed.

Lemma pixels_to_blender_units_zero (p : Z) (r pf : float) :
  float_of_int p = Ok pf → PrimFloat.eqb r 0 = true →
  pixels_to_blender_units p r = Raise ZeroDivisionError.
Proof.
  intros Hp Hr. unfold pixels_to_blender_units, truediv.
  rewrite Hp. simpl. by rewrite Hr.
Qed.

Lemma pixels_to_blender_units_overflow (p : Z) (r : float) :
  float_of_int p = Raise OverflowError →
  pixels_to_blender_units p r = Raise OverflowError.
Proof. intros Hp. unfold pixels_to_blender_units. by rewrite Hp. Qed.

Lemma calculate_real_world_size_outcomes'
    (width_pixels height_pixels : Z) (ratio : float) :
  match float_of_int width_pixels with
  | Raise _ =>
      calculate_real_world_size width_pixels height_pixels ratio
      = Raise OverflowError
  | Ok fw =>
      if PrimFloat.eqb ratio 0
      then calculate_real_world_size width_pixels height_pixels ratio
           = Raise ZeroDivisionError
      else match float_of_int height_pixels with
           | Raise _ =>
               calculate_real_world_size width_pixels height_pixels ratio
               = Raise OverflowError
           | Ok fh =>
               calculate_real_world_size width_pixels height_pixels ratio
               = Ok (PrimFloat.div (PrimFloat.div fw ratio) 1000,
                     PrimFloat.div (PrimFloat.div fh ratio) 1000)
           end
  end.
Proof.
  unfold calculate_real_world_size.
  destruct (float_of_int_cases width_pixels) as [[fw Hw]|Hw]; rewrite Hw.
  2: { rewrite (pixels_to_blender_units_overflow width_pixels) by done.
       reflexivity. }
  destruct (PrimFloat.eqb ratio 0) eqn:Hr.
  { rewrite (pixels_to_blender_units_zero width_pixels _ fw) by done.
    reflexivity. }
  rewrite (pixels_to_blender_units_ok width_pixels _ fw) by done. simpl.
  destruct (float_of_int_cases height_pixels) as [[fh Hh]|Hh]; rewrite Hh.
  - rewrite (pixels_to_blender_units_ok height_pixels _ fh) by done.
    reflexivity.
  - rewrite (pixels_to_blender_units_overflow height_pixels) by done.
    reflexivity.
Qed.

(** X15. [calculate_real_world_size] returns a pair exactly when the ratio
    is not zero (of either sign) and both pixel counts convert to floats;
    negative and NaN ratios are accepted. The width is handled first: an
    unconvertible width raises [OverflowError]; otherwise a zero ratio
    raises [ZeroDivisionError], whatever the height is; otherwise an
    unconvertible height raises [OverflowError]. *)
Theorem calculate_real_world_size_outcomes
    (width_pixels height_pixels : Z) (ratio : float) :
  match float_of_int width_pixels with
  | Raise _ =>
      calculate_real_world_size width_pixels height_pixels ratio
      = Raise OverflowError
  | Ok fw =>
      if PrimFloat.eqb ratio 0
      then calculate_real_world_size width_pixels height_pixels ratio
           = Raise ZeroDivisionError
      else match float_of_int height_pixels with
           | Raise _ =>
               calculate_real_world_size width_pixels height_pixels ratio
               = Raise OverflowError
           | Ok fh =>
               calculate_real_world_size width_pixels height_pixels ratio
               = Ok (PrimFloat.div (PrimFloat.div fw ratio) 1000,
                     PrimFloat.div (PrimFloat.div fh ratio) 1000)
           end
  end.
Proof. apply calculate_real_world_size_outcomes'. Qed.

(** *** Validation *)

Lemma bind_Ok_inv {A B : Type} (m : result A) (f : A → result B) (b : B) :
  m ≫= f = Ok b → ∃ a, m = Ok a ∧ f a = Ok b.
Proof. destruct m as [a|e]; [by exists a|done]. Qed.

(** Case analysis on every condition that guards a warning. *)
Ltac split_warnings :=
  unfold warn_if;
  repeat match goal with
         | |- context [if ?c then _ else _] => destruct c
         end;
  simpl.

(** X16. Every result of [validate_scaling_parameters] is consistent:
    [valid] and [can_proceed] are equal, they are true exactly when no error
    was recorded, and at most one error is recorded (the checks stop at the
    first failure). *)
Theorem validate_scaling_parameters_consistent
    (obj : option Object) (tex_width tex_height : Z) (ratio : float)
    (r : validation) :
  validate_scaling_parameters obj tex_width tex_height ratio = Ok r →
  valid r = can_proceed r
  ∧ (can_proceed r = true ↔ errors r = [])
  ∧ (length (errors r) ≤ 1)%nat.
Proof.
  unfold validate_scaling_parameters.
  destruct obj as [o|];
    [|intros [= <-]; repeat split; (done || simpl; lia)].
  destruct (negb _);
    [intros [= <-]; repeat split; (done || simpl; lia)|].
  destruct (_ || _);
    [intros [= <-]; repeat split; (done || simpl; lia)|].
  destruct (PrimFloat.leb ratio 0).
  { intros [= <-]. split_warnings; repeat split; (done || lia). }
  destruct (_ || _).
  { intros [= <-]. split_warnings; repeat split; (done || lia). }
  intros ([tw th] & _ & ([sx sy] & _ & [= <-])%bind_Ok_inv)%bind_Ok_inv.
  split_warnings; repeat split; (done || lia).
Qed.

Lemma validate_scaling_parameters_consistent_witness :
  let r := mkValidation false ["Invalid pixel to millimeter ratio"%string]
             ["Very large texture dimensions detected"%string] false in
  validate_scaling_parameters
    (Some (mkObject "MESH" (mkVector 2 2 0))) 32768 16 (-1) = Ok r
  ∧ valid r = can_proceed r
  ∧ (can_proceed r = true ↔ errors r = [])
  ∧ (length (errors r) ≤ 1)%nat.
Proof.
  split; [reflexivity|].
  apply (validate_scaling_parameters_consistent
           (Some (mkObject "MESH" (mkVector 2 2 0))) 32768 16 (-1)).
  reflexivity.
Defined.

(** X17. [validate_scaling_parameters] never raises [ZeroDivisionError]
    (a zero ratio of either sign and a zero object dimension are reported as
    errors before any division): the only exception it can raise is
    [OverflowError], and with texture dimensions of magnitude below 2^53 it
    always returns a result. *)
Theorem validate_scaling_parameters_raises
    (obj : option Object) (tex_width tex_height : Z) (ratio : float) :
  (∀ e : exn,
      validate_scaling_parameters obj tex_width tex_height ratio = Raise e →
      e = OverflowError)
  ∧ (Z.abs tex_width < 2 ^ 53 → Z.abs tex_height < 2 ^ 53 →
     ∃ r, validate_scaling_parameters obj tex_width tex_height ratio = Ok r).
Proof.
  unfold validate_scaling_parameters.
  destruct obj as [o|]; [|split; [done|by eexists]].
  destruct (negb _); [split; [done|by eexists]|].
  destruct (_ || _); [split; [done|by eexists]|].
  destruct (PrimFloat.leb ratio 0) eqn:Hr; [split; [done|by eexists]|].
  apply eqb_zero_of_not_leb in Hr.
  destruct (PrimFloat.eqb (x (copy (dimensions o))) 0) eqn:Hx;
    [split; [done|by eexists]|].
  destruct (PrimFloat.eqb (y (copy (dimensions o))) 0) eqn:Hy;
    [split; [done|by eexists]|].
  cbn [orb]. simpl in Hx, Hy.
  pose proof (calculate_real_world_size_outcomes' tex_width tex_height ratio)
    as Hcalc.
  rewrite Hr in Hcalc.
  destruct (float_of_int tex_width) as [fw|e1] eqn:Hfw.
  2: { rewrite Hcalc. split; [by intros e [= <-]|]. intros Hw _.
       destruct (float_of_int_small _ Hw) as [fw Hfw']. congruence. }
  destruct (float_of_int tex_height) as [fh|e2] eqn:Hfh.
  2: { rewrite Hcalc. split; [by intros e [= <-]|]. intros _ Hh.
       destruct (float_of_int_small _ Hh) as [fh Hfh']. congruence. }
  rewrite Hcalc. simpl. unfold truediv. rewrite Hx, Hy. simpl.
  split; [done|]. intros _ _. by eexists.
Qed.

Lemma validate_scaling_parameters_raises_witness :
  Z.abs 4096 < 2 ^ 53 ∧ Z.abs 2048 < 2 ^ 53
  ∧ ∃ r, validate_scaling_parameters
           (Some (mkObject "MESH" (mkVector 2 2 0))) 4096 2048 0 = Ok r.
Proof.
  split; [done|]. split; [done|].
  apply (proj2 (validate_scaling_parameters_raises
                  (Some (mkObject "MESH" (mkVector 2 2 0))) 4096 2048 0));
    done.
Defined.

(** *** Applying the scale *)

Lemma calculate_real_world_size_Ok_inv
    (tex_width tex_height : Z) (ratio a b : float) :
  calculate_real_world_size tex_width tex_height ratio = Ok (a, b) →
  ∃ fw fh : float,
    float_of_int tex_width = Ok fw ∧ float_of_int tex_height = Ok fh
    ∧ PrimFloat.eqb ratio 0 = false
    ∧ a = PrimFloat.div (PrimFloat.div fw ratio) 1000
    ∧ b = PrimFloat.div (PrimFloat.div fh ratio) 1000.
Proof.
  pose proof (calculate_real_world_size_outcomes' tex_width tex_height ratio)
    as Hcalc.
  destruct (float_of_int tex_width) as [fw|]; [|by rewrite Hcalc].
  destruct (PrimFloat.eqb ratio 0); [by rewrite Hcalc|].
  destruct (float_of_int tex_height) as [fh|]; [|by rewrite Hcalc].
  rewrite Hcalc. intros [= <- <-]. by exists fw, fh.
Qed.

Lemma truediv_int_ok (n : Z) (f b : float) :
  float_of_int n = Ok f → PrimFloat.eqb b 0 = false →
  truediv_int n b = Ok (PrimFloat.div f b).
Proof.
  intros Hn Hb. unfold truediv_int, truediv. rewrite Hn. simpl.
  by rewrite Hb.
Qed.

Lemma validate_scaling_parameters_can_proceed
    (o : Object) (tex_width tex_height : Z) (ratio : float) (r : validation) :
  validate_scaling_parameters (Some o) tex_width tex_height ratio = Ok r →
  can_proceed r = true →
  type o = "MESH"%string
  ∧ PrimFloat.eqb (x (dimensions o)) 0 = false
  ∧ PrimFloat.eqb (y (dimensions o)) 0 = false
  ∧ ∃ t, calculate_real_world_size tex_width tex_height ratio = Ok t.
Proof.
  unfold validate_scaling_parameters.
  destruct (String.eqb_spec (type o) "MESH") as [Hty|]; simpl;
    [|by intros [= <-]].
  destruct (_ || _); [by intros [= <-]|].
  destruct (PrimFloat.leb ratio 0).
  { intros [= <-]. by split_warnings. }
  destruct (PrimFloat.eqb (x (dimensions o)) 0) eqn:Hx.
  { intros [= <-]. by split_warnings. }
  destruct (PrimFloat.eqb (y (dimensions o)) 0) eqn:Hy.
  { intros [= <-]. by split_warnings. }
  simpl. intros (t & Ht & _)%bind_Ok_inv _.
  split; [done|]. split; [done|]. split; [done|]. by exists t.
Qed.

(** X18. What the operator relies on: whenever
    [validate_scaling_parameters] returns a result with [can_proceed] true,
    [apply_texture_scaling] on the same arguments returns [True] (provided
    the host's view-layer update returns), and the scale it stores is the
    old scale times target size over current dimension, on x and on y, with
    z untouched. *)
Theorem apply_texture_scaling_after_validation
    (store : float → float) (o : Object) (scale : Vector)
    (tex_width tex_height : Z) (ratio : float) (r : validation) :
  validate_scaling_parameters (Some o) tex_width tex_height ratio = Ok r →
  can_proceed r = true →
  ∃ target_width target_height : float,
    calculate_real_world_size tex_width tex_height ratio
    = Ok (target_width, target_height)
    ∧ ApplyScaling.apply_texture_scaling store true (Some o) scale
        tex_width tex_height ratio
      = (true,
         mkVector
           (store (PrimFloat.mul (x scale)
                     (PrimFloat.div target_width (x (dimensions o)))))
           (store (PrimFloat.mul (y scale)
                     (PrimFloat.div target_height (y (dimensions o)))))
           (z scale)).
Proof.
  intros Hv Hcp.
  destruct (validate_scaling_parameters_can_proceed _ _ _ _ _ Hv Hcp)
    as (Hty & Hx & Hy & [[tw th] Ht]).
  exists tw, th. split; [done|].
  unfold ApplyScaling.apply_texture_scaling.
  rewrite Hty, Ht, (calculate_scale_factors_ok o) by done.
  reflexivity.
Qed.

Lemma apply_texture_scaling_after_validation_witness :
  let o := mkObject "MESH" (mkVector 2 4 0) in
  let r := mkValidation true [] [] true in
  validate_scaling_parameters (Some o) 4096 2048 1 = Ok r
  ∧ can_proceed r = true
  ∧ ∃ target_width target_height : float,
      calculate_real_world_size 4096 2048 1
      = Ok (target_width, target_height)
      ∧ ApplyScaling.apply_texture_scaling (λ f, f) true (Some o)
          (mkVector 1 1 1) 4096 2048 1
        = (true,
           mkVector
             (PrimFloat.mul 1 (PrimFloat.div target_width 2))
             (PrimFloat.mul 1 (PrimFloat.div target_height 4))
             1%float).
Proof.
  split; [reflexivity|]. split; [reflexivity|].
  apply (apply_texture_scaling_after_validation (λ f, f)
           (mkObject "MESH" (mkVector 2 4 0)) (mkVector 1 1 1) 4096 2048 1
           (mkValidation true [] [] true)); reflexivity.
Defined.

(** X19. [apply_texture_scaling] returns [True] exactly when the object is a
    mesh, the target size can be computed (non-zero ratio, convertible
    texture dimensions) and the host's update returns; it checks neither the
    sign of the texture dimensions or of the ratio nor the object's
    dimensions. Every exception is swallowed, and a call that returns
    [False] while the host's update returns leaves the scale as it was. *)
Theorem apply_texture_scaling_outcome
    (store : float → float) (view_layer_update : bool)
    (obj : option Object) (scale : Vector)
    (tex_width tex_height : Z) (ratio : float) :
  let res :=
    ApplyScaling.apply_texture_scaling store view_layer_update obj scale
      tex_width tex_height ratio in
  (res.1 = true
   ↔ view_layer_update = true
     ∧ (∃ o, obj = Some o ∧ type o = "MESH"%string)
     ∧ ∃ t, calculate_real_world_size tex_width tex_height ratio = Ok t)
  ∧ (res.1 = false → view_layer_update = true → res.2 = scale).
Proof.
  unfold ApplyScaling.apply_texture_scaling.
  destruct obj as [o|]; cbn [fst snd].
  2: { split; [|done]. split; [done|]. by intros (_ & (o & ? & _) & _). }
  destruct (String.eqb_spec (type o) "MESH") as [Hty|Hty]; cbn [negb fst snd].
  2: { split; [|done]. split; [done|].
       intros (_ & (o' & [= <-] & ?) & _). done. }
  destruct (calculate_real_world_size tex_width tex_height ratio)
    as [[tw th]|e]; cbn [fst snd].
  2: { split; [|done]. split; [done|]. by intros (_ & _ & [t ?]). }
  assert (∃ sx sy, calculate_scale_factors (Some o) tw th = Ok (sx, sy))
    as (sx & sy & ->).
  { unfold calculate_scale_factors, truediv. simpl.
    destruct (PrimFloat.eqb (x (dimensions o)) 0); [by eexists _, _|].
    destruct (PrimFloat.eqb (y (dimensions o)) 0); by eexists _, _. }
  destruct view_layer_update; cbn [fst snd].
  - split; [|done]. split; [|done]. intros _.
    split; [done|]. split; [by exists o|by eexists].
  - split; [|done]. split; [done|]. by intros [? _].
Qed.

(** *** The preview of the scaling *)

(** X20. [get_object_texture_scale_info] never raises, and its result is
    valid exactly when the object is a mesh and the target size can be
    computed. A valid result reports the target size in both entries
    ([texture_size_m] equals [target_dimensions], and is [texture_size_mm]
    divided by 1000) and the factors [calculate_scale_factors] returns for
    it; an invalid result keeps the default factors (1.0, 1.0). *)
Theorem get_object_texture_scale_info_valid
    (obj : option Object) (tex_width tex_height : Z) (ratio : float) :
  let info :=
    ScaleInfo.get_object_texture_scale_info obj tex_width tex_height ratio in
  (ScaleInfo.valid info = true
   ↔ (∃ o, obj = Some o ∧ type o = "MESH"%string)
     ∧ ∃ t, calculate_real_world_size tex_width tex_height ratio = Ok t)
  ∧ (ScaleInfo.valid info = true →
     calculate_real_world_size tex_width tex_height ratio
     = Ok (ScaleInfo.target_dimensions info)
     ∧ ScaleInfo.texture_size_m info = ScaleInfo.target_dimensions info
     ∧ ScaleInfo.texture_size_m info
       = (PrimFloat.div (ScaleInfo.texture_size_mm info).1 1000,
          PrimFloat.div (ScaleInfo.texture_size_mm info).2 1000)
     ∧ calculate_scale_factors obj
         (ScaleInfo.target_dimensions info).1
         (ScaleInfo.target_dimensions info).2
       = Ok (ScaleInfo.scale_factors info))
  ∧ (ScaleInfo.valid info = false →
     ScaleInfo.scale_factors info = (1%float, 1%float)).
Proof.
  unfold ScaleInfo.get_object_texture_scale_info.
  destruct obj as [o|].
  2: { cbn. split; [|done]. split; [done|]. by intros [(o & ? & _) _]. }
  destruct (String.eqb_spec (type o) "MESH") as [Hty|Hty]; cbn [negb].
  2: { cbn. split; [|done]. split; [done|].
       intros [(o' & [= <-] & ?) _]. done. }
  destruct (calculate_real_world_size tex_width tex_height ratio)
    as [[tw th]|e] eqn:Hcalc.
  2: { cbn. split; [|done]. split; [done|]. by intros [_ [t ?]]. }
  destruct (calculate_real_world_size_Ok_inv _ _ _ _ _ Hcalc)
    as (fw & fh & Hfw & Hfh & Hr & -> & ->).
  rewrite (truediv_int_ok _ fw), (truediv_int_ok _ fh) by done.
  assert (∃ sx sy,
             calculate_scale_factors (Some o)
               (PrimFloat.div (PrimFloat.div fw ratio) 1000)
               (PrimFloat.div (PrimFloat.div fh ratio) 1000)
             = Ok (sx, sy)) as (sx & sy & Hsf).
  { unfold calculate_scale_factors, truediv. simpl.
    destruct (PrimFloat.eqb (x (dimensions o)) 0); [by eexists _, _|].
    destruct (PrimFloat.eqb (y (dimensions o)) 0); by eexists _, _. }
  rewrite Hsf. cbn -[calculate_scale_factors].
  split; [|split; [|done]].
  - split; [|done]. intros _. split; [by exists o|by eexists].
  - intros _. by rewrite Hsf.
Qed.

(** *** Texture density *)


End ScalingMore.
